(** * legoMosaic: the mosaic renderer of [lego_app.py] and its colour matchers

    A shallow embedding of [src/lego_app.py]: the LEGO palette, the two
    nearest-colour matchers ([closest_lego_color], [closest_lego_color_lab]),
    the renderer [lego_pixelate] and the derivation of the grid height in
    the user-interface script.

    Python integers are [Z]; Python floats are the binary64 numbers of
    [PrimFloat]; exceptions are an error monad.  The two libraries the
    program calls, Pillow and colormath, are collaborators: the parts of
    them that are pure bookkeeping (image size, pixel access, argument
    checks) are written out, the numeric kernels (bilinear filter, sRGB to
    Lab conversion, CIE2000 difference) and the memory that an image needs
    are interfaces. *)

From Stdlib Require Import ZArith List String Bool Lia Floats.
From Stdlib Require Import Strings.Byte.
Import ListNotations.
Local Open Scope Z_scope.

(** ** Exceptions *)

(** The built-in exceptions that the modelled code can raise. *)
Inductive exn : Type :=
| ValueError
| IndexError
| ZeroDivisionError
| OverflowError
| MemoryError.

Inductive result (A : Type) : Type :=
| Ok (a : A)
| Raise (e : exn).
Arguments Ok {A} a.
Arguments Raise {A} e.

Definition bind {A B} (m : result A) (k : A -> result B) : result B :=
  match m with
  | Ok a => k a
  | Raise e => Raise e
  end.

Notation "x <- m ;; k" := (bind m (fun x => k))
  (at level 61, m at next level, right associativity).

(** ** Python loops *)

(** [range_from i n] is [i, i+1, ..., i+n-1]. *)
Fixpoint range_from (i : Z) (n : nat) : list Z :=
  match n with
  | O => []
  | S k => i :: range_from (i + 1) k
  end.

(** Python's [range(n)]: empty when [n <= 0]. *)
Definition range (n : Z) : list Z := range_from 0 (Z.to_nat n).

(** [for i in l: s = body(i, s)], stopping at the first exception. *)
Fixpoint for_each {St : Type} (l : list Z) (body : Z -> St -> result St) (s : St)
  : result St :=
  match l with
  | [] => Ok s
  | i :: t => s' <- body i s ;; for_each t body s'
  end.

(** ** The palette (lines 12-57) *)

(** An RGB colour as the program handles it: a tuple of three Python ints. *)
Definition RGB : Type := (Z * Z * Z)%type.

(** A palette entry, the dict [{"name": ..., "rgb": ...}]. *)
Record lego_color : Type := mk_color { name : string; rgb : RGB }.

Definition LEGO_COLORS : list lego_color :=
  [ mk_color "Brick Yellow" (236, 217, 185);
    mk_color "Nougat" (204, 142, 105);
    mk_color "Bright Red" (180, 0, 0);
    mk_color "Bright Blue" (0, 85, 191);
    mk_color "Bright Yellow" (255, 205, 0);
    mk_color "Black" (27, 42, 52);
    mk_color "Dark Green" (0, 69, 26);
    mk_color "Bright Green" (75, 151, 75);
    mk_color "Dark Orange" (160, 80, 0);
    mk_color "Medium Blue" (73, 138, 199);
    mk_color "Bright Orange" (255, 127, 0);
    mk_color "Bright Bluish Green" (0, 158, 143);
    mk_color "Bright Yellowish-Green" (193, 223, 0);
    mk_color "Bright Reddish Violet" (160, 0, 128);
    mk_color "Sand Blue" (100, 124, 162);
    mk_color "Sand Yellow" (170, 153, 114);
    mk_color "Earth Blue" (0, 32, 96);
    mk_color "Earth Green" (0, 50, 40);
    mk_color "Sand Green" (120, 144, 130);
    mk_color "Dark Red" (123, 0, 27);
    mk_color "Flame Yellowish Orange" (255, 176, 0);
    mk_color "Reddish Brown" (105, 64, 40);
    mk_color "Medium Stone Grey" (163, 162, 165);
    mk_color "Dark Stone Grey" (99, 95, 98);
    mk_color "Light Stone Grey" (229, 228, 223);
    mk_color "Light Royal Blue" (180, 210, 228);
    mk_color "Bright Purple" (123, 0, 123);
    mk_color "Light Purple" (220, 178, 229);
    mk_color "Cool Yellow" (255, 236, 108);
    mk_color "Dark Purple" (85, 0, 85);
    mk_color "Light Nougat" (255, 223, 196);
    mk_color "Dark Brown" (62, 32, 10);
    mk_color "Medium Nougat" (174, 122, 89);
    mk_color "Dark Azur" (32, 108, 137);
    mk_color "Medium Azur" (104, 195, 226);
    mk_color "Aqua" (175, 232, 225);
    mk_color "Medium Lavender" (180, 140, 200);
    mk_color "Lavender" (203, 153, 201);
    mk_color "White Glow" (247, 247, 247);
    mk_color "Spring Yellowish Green" (234, 255, 99);
    mk_color "Olive Green" (91, 110, 53);
    mk_color "Medium Yellowish Green" (170, 210, 60);
    mk_color "Vibrant Coral" (255, 115, 119);
    mk_color "Vibrant Yellow" (255, 239, 0) ].

(** ** Fast RGB match (lines 82-85) *)

(** The inner [distance]: [sum((a - b) ** 2 for a, b in zip(c1, c2))]. *)
Definition distance (c1 c2 : RGB) : Z :=
  let '(r1, g1, b1) := c1 in
  let '(r2, g2, b2) := c2 in
  0 + (r1 - r2) ^ 2 + (g1 - g2) ^ 2 + (b1 - b2) ^ 2.

(** The scan of Python's [min(iterable, key=...)]: the running best is
    replaced only by an item whose key is strictly smaller. *)
Fixpoint min_scan {A : Type} (key : A -> Z) (best : A) (l : list A) : A :=
  match l with
  | [] => best
  | x :: t => if key x <? key best then min_scan key x t else min_scan key best t
  end.

(** [min(l, key=key)]; an empty iterable raises [ValueError]. *)
Definition py_min {A : Type} (key : A -> Z) (l : list A) : result A :=
  match l with
  | [] => Raise ValueError
  | x :: t => Ok (min_scan key x t)
  end.

Definition closest_lego_color (pixel_rgb : RGB) : result RGB :=
  c <- py_min (fun c => distance pixel_rgb (rgb c)) LEGO_COLORS ;;
  Ok (rgb c).

(** ** Python floats *)

(** [float(z)]: the nearest binary64 number (exact for [|z| < 2^53], which
    covers colour channels and image dimensions). *)
Definition float_of_int (z : Z) : float :=
  SF2Prim (binary_normalize prec emax z 0 false).

(** [int(f)]: truncation toward zero; [int(nan)] raises [ValueError] and
    [int(inf)] raises [OverflowError]. *)
Definition int_of_float (f : float) : result Z :=
  match Prim2SF f with
  | S754_nan => Raise ValueError
  | S754_infinity _ => Raise OverflowError
  | S754_zero _ => Ok 0
  | S754_finite s m e =>
      let a := if 0 <=? e then Zpos m * 2 ^ e else Zpos m / 2 ^ (- e) in
      Ok (if s then - a else a)
  end.

(** ** colormath (lines 7-9): the perceptual metric, an interface *)

(** [sRGBColor(r, g, b)] with channels already scaled to [0, 1]. *)
Record sRGBColor : Type := mk_sRGB { rgb_r : float; rgb_g : float; rgb_b : float }.

Class Colormath : Type := {
  LabColor : Type;
  (** [convert_color(srgb, LabColor)] *)
  convert_color : sRGBColor -> LabColor;
  (** [delta_e_cie2000(lab1, lab2)], read back as a Python float *)
  delta_e_cie2000 : LabColor -> LabColor -> float }.

(** ** Pillow: images *)

(** A stored pixel of an "RGB" image: three bytes. *)
Definition pixel8 : Type := (byte * byte * byte)%type.

(** An "RGB" image: its size and its pixel at each coordinate. *)
Record Image : Type := mk_image { width : Z; height : Z; px : Z -> Z -> pixel8 }.

(** The value of a stored channel. *)
Definition u8 (b : byte) : Z := Z.of_N (Byte.to_N b).

(** Pillow's [CLIP8]: a channel written to an image is clamped to [0, 255]. *)
Definition CLIP8 (z : Z) : byte :=
  match Byte.of_N (Z.to_N (Z.max 0 (Z.min 255 z))) with
  | Some b => b
  | None => x00
  end.

(** A stored pixel as [getpixel] returns it, and a colour as [putpixel]
    stores it. *)
Definition to_rgb (p : pixel8) : RGB :=
  let '(r, g, b) := p in (u8 r, u8 g, u8 b).

Definition of_rgb (c : RGB) : pixel8 :=
  let '(r, g, b) := c in (CLIP8 r, CLIP8 g, CLIP8 b).

(** A Python int that Pillow's C code can read as a C [int]. *)
Definition fits_C_int (z : Z) : bool := (- 2 ^ 31 <=? z) && (z <? 2 ^ 31).

(** The memory Pillow draws on: [can_allocate w h] says whether it obtains
    what an image of [w] by [h] pixels needs (its own limit on the length
    of a line included).  An image of at most 32 by 32 pixels is always
    obtained. *)
Class Memory : Type := {
  can_allocate : Z -> Z -> bool;
  can_allocate_small :
    forall w h, 0 <= w <= 32 -> 0 <= h <= 32 -> can_allocate w h = true }.

(** [Image.new("RGB", size)]: a black image.  A negative side raises
    [ValueError]; a side that is no C [int] raises [OverflowError]; without
    the memory the call raises [MemoryError]. *)
Definition Image_new `{Memory} (size : Z * Z) : result Image :=
  let '(w, h) := size in
  if (w <? 0) || (h <? 0) then Raise ValueError
  else if negb (fits_C_int w && fits_C_int h) then Raise OverflowError
  else if can_allocate w h then Ok (mk_image w h (fun _ _ => (x00, x00, x00)))
  else Raise MemoryError.

(** Pillow resolves a negative coordinate from the far edge and raises
    [IndexError] outside the image. *)
Definition locate (im : Image) (xy : Z * Z) : result (Z * Z) :=
  let '(x, y) := xy in
  let x := if x <? 0 then width im + x else x in
  let y := if y <? 0 then height im + y else y in
  if (x <? 0) || (width im <=? x) || (y <? 0) || (height im <=? y)
  then Raise IndexError
  else Ok (x, y).

(** [im.getpixel(xy)] *)
Definition getpixel (im : Image) (xy : Z * Z) : result RGB :=
  p <- locate im xy ;;
  Ok (to_rgb (px im (fst p) (snd p))).

(** [im.putpixel(xy, color)], the in-place update as a new image value. *)
Definition putpixel (im : Image) (xy : Z * Z) (color : RGB) : result Image :=
  p <- locate im xy ;;
  Ok (mk_image (width im) (height im)
        (fun a b => if (a =? fst p) && (b =? snd p) then of_rgb color
                    else px im a b)).

(** The bilinear filter of [Image.resize]: the pixel at [(x, y)] of the
    source resampled to [size]. *)
Class Resampler : Type := {
  BILINEAR : Image -> Z * Z -> Z -> Z -> pixel8 }.

(** [img.resize(size, resample=Image.BILINEAR)]: a copy when the size is
    unchanged.  Otherwise the C code reads the size, raising
    [OverflowError] for a side that is no C [int], then raises [ValueError]
    for a side below 1.  Without the memory for the new image the call
    raises [MemoryError]. *)
Definition resize `{Resampler} `{Memory} (img : Image) (size : Z * Z)
  : result Image :=
  let '(w, h) := size in
  if (width img =? w) && (height img =? h)
  then if can_allocate w h then Ok img else Raise MemoryError
  else if negb (fits_C_int w && fits_C_int h) then Raise OverflowError
  else if (w <? 1) || (h <? 1) then Raise ValueError
  else if can_allocate w h then Ok (mk_image w h (BILINEAR img size))
  else Raise MemoryError.

(** ** High accuracy colour matching (lines 59-79) *)

Section Matching.
Context `{Colormath}.

Definition rgb_to_lab (c : RGB) : LabColor :=
  let '(r, g, b) := c in
  let srgb := mk_sRGB (float_of_int r / 255)%float
                      (float_of_int g / 255)%float
                      (float_of_int b / 255)%float in
  convert_color srgb.

(** The body of the [for color in LEGO_COLORS] loop on the pair
    [(closest, min_dist)]. *)
Definition lab_step (target : LabColor) (st : lego_color * float)
           (color : lego_color) : lego_color * float :=
  let '(closest, min_dist) := st in
  let lego_lab := rgb_to_lab (rgb color) in
  let delta := delta_e_cie2000 target lego_lab in
  if (delta <? min_dist)%float then (color, delta) else (closest, min_dist).

Definition closest_lego_color_lab (pixel_rgb : RGB) : result RGB :=
  let target := rgb_to_lab pixel_rgb in
  closest <- match LEGO_COLORS with
             | [] => Raise IndexError
             | c :: _ => Ok c
             end ;;
  let min_dist := infinity in
  let '(closest, _) :=
    fold_left (lab_step target) LEGO_COLORS (closest, min_dist) in
  Ok (rgb closest).
End Matching.

(** ** Main pixelation function (lines 88-103) *)

Section Pixelate.
Context `{Colormath} `{Resampler} `{Memory}.

Definition lego_pixelate (img : Image) (pixel_size : Z) (grid_size : Z * Z)
           (use_lego_palette high_accuracy : bool) : result Image :=
  small <- resize img grid_size ;;
  result <- Image_new (fst grid_size * pixel_size, snd grid_size * pixel_size) ;;
  for_each (range (snd grid_size)) (fun y result =>
    for_each (range (fst grid_size)) (fun x result =>
      orig_color <- getpixel small (x, y) ;;
      color <- (if use_lego_palette
                then if high_accuracy
                     then closest_lego_color_lab orig_color
                     else closest_lego_color orig_color
                else Ok orig_color) ;;
      for_each (range pixel_size) (fun dy result =>
        for_each (range pixel_size) (fun dx result =>
          putpixel result (x * pixel_size + dx, y * pixel_size + dy) color)
        result)
      result)
    result)
  result.
End Pixelate.

(** ** Grid height in the user-interface script (lines 129-130) *)

(** [aspect_ratio = original.height / original.width] and
    [height_blocks = int(width_blocks * aspect_ratio)]. *)
Definition height_blocks (original_height original_width width_blocks : Z)
  : result Z :=
  if original_width =? 0 then Raise ZeroDivisionError
  else
    let aspect_ratio :=
      (float_of_int original_height / float_of_int original_width)%float in
    int_of_float (float_of_int width_blocks * aspect_ratio)%float.

(** ** The call of the renderer in the script (lines 129-141) *)

(** From the uploaded image and the two slider values the script derives
    [height_blocks] and calls [lego_pixelate] on the grid
    [(width_blocks, height_blocks)]; the value is [lego_img]. *)
Definition script_lego_img `{Colormath} `{Resampler} `{Memory} (original : Image)
           (brick_size width_blocks : Z) (use_lego high_accuracy : bool)
  : result Image :=
  height_blocks <- height_blocks (height original) (width original) width_blocks ;;
  lego_pixelate original brick_size (width_blocks, height_blocks)
                use_lego high_accuracy.

(** ** Concrete collaborators, used to run the model on examples *)

Module Examples.

(** A metric that computes: the squared Euclidean distance between the
    scaled channels. *)
Definition sq (x : float) : float := (x * x)%float.

#[export] Instance euclid : Colormath := {
  LabColor := sRGBColor;
  convert_color := fun c => c;
  delta_e_cie2000 := fun c1 c2 =>
    (sq (rgb_r c1 - rgb_r c2) + sq (rgb_g c1 - rgb_g c2)
     + sq (rgb_b c1 - rgb_b c2))%float }.

(** A resampler that computes: nearest-neighbour sampling. *)
#[export] Instance nearest : Resampler := {
  BILINEAR := fun img size x y =>
    px img (x * width img / fst size) (y * height img / snd size) }.

(** A memory that never runs out. *)
#[export] Instance plenty : Memory := {
  can_allocate := fun _ _ => true;
  can_allocate_small := fun _ _ _ _ => eq_refl }.

(** An image of one colour. *)
Definition solid (w h : Z) (c : RGB) : Image :=
  mk_image w h (fun _ _ => of_rgb c).

(** A 2x2 image with four different pixels. *)
Definition quad : Image :=
  mk_image 2 2 (fun a b =>
    of_rgb (if a =? 0 then if b =? 0 then (255, 0, 0) else (0, 200, 30)
            else if b =? 0 then (12, 13, 14) else (250, 250, 250))).

(** A pixel that is not a palette colour. *)
Definition crimson : RGB := (200, 10, 10).

End Examples.

(** * Vocabulary of the properties *)

(** A colour whose three channels are bytes. *)
Definition in_gamut (c : RGB) : Prop :=
  let '(r, g, b) := c in 0 <= r <= 255 /\ 0 <= g <= 255 /\ 0 <= b <= 255.

(** The same, as a test. *)
Definition in_gamutb (c : RGB) : bool :=
  let '(r, g, b) := c in
  (0 <=? r) && (r <=? 255) && (0 <=? g) && (g <=? 255) && (0 <=? b) && (b <=? 255).

(** [m] is the first minimal element of [l] for [lt]: everything before it
    is strictly above it, nothing after it is strictly below it. *)
Definition first_min {A : Type} (lt : A -> A -> Prop) (l : list A) (m : A) : Prop :=
  exists pre post,
    l = pre ++ m :: post /\
    (forall x, In x pre -> lt m x) /\
    (forall x, In x post -> ~ lt x m).

(** Keep the running best unless the next item is strictly below it. *)
Fixpoint scan {A : Type} (ltb : A -> A -> bool) (best : A) (l : list A) : A :=
  match l with
  | [] => best
  | x :: t => if ltb x best then scan ltb x t else scan ltb best t
  end.

(** The order the fast matcher scans with. *)
Definition closer (pixel_rgb : RGB) (c1 c2 : lego_color) : Prop :=
  distance pixel_rgb (rgb c1) < distance pixel_rgb (rgb c2).

(** A key that orders the numbers that are not NaN: class first, then
    exponent, then mantissa. *)
Definition sf_key (x : spec_float) : Z * Z * Z :=
  match x with
  | S754_nan => (3, 0, 0)
  | S754_infinity true => (-2, 0, 0)
  | S754_infinity false => (2, 0, 0)
  | S754_zero _ => (0, 0, 0)
  | S754_finite false m e => (1, e, Zpos m)
  | S754_finite true m e => (-1, - e, Zneg m)
  end.

(** The lexicographic order of the keys. *)
Definition lexlt (k1 k2 : Z * Z * Z) : Prop :=
  let '(a1, b1, c1) := k1 in
  let '(a2, b2, c2) := k2 in
  a1 < a2 \/ (a1 = a2 /\ (b1 < b2 \/ (b1 = b2 /\ c1 < c2))).

(** The key of a binary64 number. *)
Definition fkey (x : float) : Z * Z * Z := sf_key (Prim2SF x).

Section MatchingVocabulary.
Context `{Colormath}.

(** The CIE2000 difference between a pixel and a palette entry, as the
    loop computes it. *)
Definition delta_to (pixel_rgb : RGB) (c : lego_color) : float :=
  delta_e_cie2000 (rgb_to_lab pixel_rgb) (rgb_to_lab (rgb c)).

(** The order the accurate matcher scans with. *)
Definition perceptually_closer (pixel_rgb : RGB) (c1 c2 : lego_color) : Prop :=
  (delta_to pixel_rgb c1 <? delta_to pixel_rgb c2)%float = true.

(** The same, as the test [delta < min_dist] of the loop. *)
Definition perceptually_closerb (pixel_rgb : RGB) (c1 c2 : lego_color) : bool :=
  (delta_to pixel_rgb c1 <? delta_to pixel_rgb c2)%float.

(** The colour chosen for a cell from the downsampled pixel (lines 95-98). *)
Definition block_color (use_lego_palette high_accuracy : bool) (orig_color : RGB)
  : result RGB :=
  if use_lego_palette
  then if high_accuracy
       then closest_lego_color_lab orig_color
       else closest_lego_color orig_color
  else Ok orig_color.

(** The stored pixel that a cell of the grid is painted with. *)
Definition cell_pixel (use_lego_palette high_accuracy : bool) (small : Image)
           (x y : Z) : pixel8 :=
  match block_color use_lego_palette high_accuracy (to_rgb (px small x y)) with
  | Ok c => of_rgb c
  | Raise _ => (x00, x00, x00)
  end.

End MatchingVocabulary.

(** Case analysis on every integer comparison of the goal. *)
Ltac zbool :=
  repeat match goal with
         | |- context [?a =? ?b] => destruct (Z.eqb_spec a b)
         | |- context [?a <=? ?b] => destruct (Z.leb_spec a b)
         | |- context [?a <? ?b] => destruct (Z.ltb_spec a b)
         end;
  simpl; try reflexivity; try lia.

(** [filled R C r0 r]: [r] is [r0] with the pixels of region [R] repainted
    with the colours [C]. *)
Definition filled (R : Z -> Z -> bool) (C : Z -> Z -> pixel8) (r0 r : Image) : Prop :=
  width r = width r0 /\ height r = height r0 /\
  forall a b, px r a b = if R a b then C a b else px r0 a b.

(** The region of the square block of side [p] whose corner is [(x0, y0)]. *)
Definition block (x0 y0 p : Z) (a b : Z) : bool :=
  (x0 <=? a) && (a <? x0 + p) && (y0 <=? b) && (b <? y0 + p).

(** The palette entry "Bright Red". *)
Definition bright_red : lego_color := mk_color "Bright Red" (180, 0, 0).

(** Equality of two colours, as a test. *)
Definition RGB_eqb (c1 c2 : RGB) : bool :=
  let '(r1, g1, b1) := c1 in
  let '(r2, g2, b2) := c2 in
  (r1 =? r2) && (g1 =? g2) && (b1 =? b2).

(** Pillow accepts the request for a new image of this size: both sides
    are C [int]s and the memory is there. *)
Definition accepts `{Memory} (size : Z * Z) : Prop :=
  fits_C_int (fst size) = true /\ fits_C_int (snd size) = true /\
  can_allocate (fst size) (snd size) = true.

(** Every stored pixel of [img] is the colour [c]. *)
Definition is_solid (img : Image) (c : RGB) : Prop :=
  forall a b, 0 <= a < width img -> 0 <= b < height img -> px img a b = of_rgb c.

(** A resampler that maps an image of one colour to that colour, as any
    filter with weights that sum to one does. *)
Definition preserves_solid (R : Resampler) : Prop :=
  forall img c size x y,
    0 < width img -> 0 < height img -> is_solid img c ->
    0 <= x < fst size -> 0 <= y < snd size ->
    BILINEAR img size x y = of_rgb c.

(** The spec's [round(width * sourceHeight / sourceWidth)]: [n] is an
    integer nearest to the quotient [num / den] (for [den > 0]). *)
Definition spec_round_nearest (num den n : Z) : Prop :=
  Z.abs (2 * (n * den - num)) <= den.

(** The exact value [num / den] of a finite binary64 number. *)
Definition sf_exact (x : spec_float) : option (Z * Z) :=
  match x with
  | S754_zero _ => Some (0, 1)
  | S754_finite s m e =>
      let num := Zpos m * 2 ^ Z.max 0 e in
      Some (if s then - num else num, 2 ^ Z.max 0 (- e))
  | _ => None
  end.

(** * Properties *)

(** ** Bytes and channels *)

Lemma u8_range (b : byte) : 0 <= u8 b <= 255.
Proof.
  unfold u8. pose proof (Byte.to_N_bounded b). lia.
Qed.

Lemma CLIP8_u8 (b : byte) : CLIP8 (u8 b) = b.
Proof.
  unfold CLIP8. pose proof (u8_range b) as Hr.
  replace (Z.max 0 (Z.min 255 (u8 b))) with (u8 b) by lia.
  unfold u8. rewrite N2Z.id, Byte.of_to_N. reflexivity.
Qed.

Lemma u8_CLIP8 (z : Z) : 0 <= z <= 255 -> u8 (CLIP8 z) = z.
Proof.
  intros Hz. unfold CLIP8, u8.
  replace (Z.max 0 (Z.min 255 z)) with z by lia.
  destruct (Byte.of_N (Z.to_N z)) as [b|] eqn:E.
  - apply Byte.to_of_N in E. rewrite E. lia.
  - apply Byte.of_N_None_iff in E. lia.
Qed.

Lemma in_gamutb_spec (c : RGB) : in_gamutb c = true -> in_gamut c.
Proof.
  destruct c as [[r g] b]. unfold in_gamutb, in_gamut.
  rewrite !andb_true_iff, !Z.leb_le. tauto.
Qed.

Lemma of_rgb_to_rgb (p : pixel8) : of_rgb (to_rgb p) = p.
Proof.
  destruct p as [[r g] b]. simpl. rewrite !CLIP8_u8. reflexivity.
Qed.

Lemma to_rgb_of_rgb (c : RGB) : in_gamut c -> to_rgb (of_rgb c) = c.
Proof.
  destruct c as [[r g] b]. intros (Hr & Hg & Hb). simpl.
  rewrite !u8_CLIP8 by assumption. reflexivity.
Qed.

Lemma to_rgb_in_gamut (p : pixel8) : in_gamut (to_rgb p).
Proof.
  destruct p as [[r g] b]. simpl. auto using u8_range.
Qed.

Lemma palette_in_gamut (c : lego_color) : In c LEGO_COLORS -> in_gamut (rgb c).
Proof.
  intros Hc. apply in_gamutb_spec. revert c Hc. apply forallb_forall.
  vm_compute. reflexivity.
Qed.

(** ** Loops *)

Lemma range_from_app (n m : nat) (i : Z) :
  range_from i (n + m) = range_from i n ++ range_from (i + Z.of_nat n) m.
Proof.
  revert i. induction n as [|n IH]; intros i; simpl.
  - f_equal. lia.
  - rewrite IH. do 3 f_equal. lia.
Qed.

(** The loop rule: an invariant [I i s] that holds before iteration [i] and
    is re-established by every iteration holds after the last one, and the
    loop raises nothing. *)
Lemma for_each_range_from {St : Type} (I : Z -> St -> Prop)
      (body : Z -> St -> result St) (n : nat) :
  forall (i0 : Z) (s : St),
    I i0 s ->
    (forall i s, i0 <= i < i0 + Z.of_nat n -> I i s ->
                 exists s', body i s = Ok s' /\ I (i + 1) s') ->
    exists s', for_each (range_from i0 n) body s = Ok s' /\ I (i0 + Z.of_nat n) s'.
Proof.
  induction n as [|n IH]; intros i0 s H0 Hstep.
  - exists s. split; [reflexivity|]. now replace (i0 + Z.of_nat 0) with i0 by lia.
  - destruct (Hstep i0 s) as (s1 & Hb & H1); [lia | assumption |].
    destruct (IH (i0 + 1) s1) as (s2 & Hl & H2); [assumption | |].
    + intros i s' Hi. apply Hstep. lia.
    + exists s2. split.
      * simpl. rewrite Hb. exact Hl.
      * now replace (i0 + Z.of_nat (S n)) with (i0 + 1 + Z.of_nat n) by lia.
Qed.

Lemma for_each_range {St : Type} (I : Z -> St -> Prop)
      (body : Z -> St -> result St) (n : Z) (s : St) :
  0 <= n ->
  I 0 s ->
  (forall i s, 0 <= i < n -> I i s -> exists s', body i s = Ok s' /\ I (i + 1) s') ->
  exists s', for_each (range n) body s = Ok s' /\ I n s'.
Proof.
  intros Hn H0 Hstep. unfold range.
  destruct (for_each_range_from I body (Z.to_nat n) 0 s) as (s' & Hl & Hs);
    [assumption | | ].
  - intros i s1 Hi. apply Hstep. lia.
  - exists s'. split; [assumption|]. now replace n with (0 + Z.of_nat (Z.to_nat n)) by lia.
Qed.

(** ** Minimum scans *)

Section Scan.
Variables (A : Type) (dom : A -> Prop) (lt : A -> A -> Prop) (ltb : A -> A -> bool).
Hypothesis ltb_lt : forall x y, ltb x y = true <-> lt x y.
Hypothesis lt_asym : forall x y, dom x -> dom y -> lt x y -> ~ lt y x.
Hypothesis lt_negtrans :
  forall x y z, dom x -> dom y -> dom z -> lt x z -> lt x y \/ lt y z.

Lemma scan_first_min_gen (l : list A) :
  forall pre best mid,
    Forall dom (pre ++ best :: mid ++ l) ->
    (forall x, In x pre -> lt best x) ->
    (forall x, In x mid -> ~ lt x best) ->
    first_min lt (pre ++ best :: mid ++ l) (scan ltb best l).
Proof.
  induction l as [|x t IH]; intros pre best mid Hdom Hpre Hmid; simpl.
  - exists pre, mid. rewrite app_nil_r. auto.
  - rewrite Forall_forall in Hdom.
    assert (Dx : dom x) by (apply Hdom; rewrite !in_app_iff; simpl; rewrite in_app_iff; simpl; auto).
    assert (Db : dom best) by (apply Hdom; rewrite !in_app_iff; simpl; auto).
    destruct (ltb x best) eqn:E.
    + apply ltb_lt in E.
      replace (pre ++ best :: mid ++ x :: t)
        with ((pre ++ best :: mid) ++ x :: [] ++ t)
        by (rewrite <- app_assoc; reflexivity).
      apply IH.
      * rewrite <- app_assoc. simpl. now apply Forall_forall.
      * intros y Hy. apply in_app_iff in Hy.
        assert (Dy : dom y).
        { apply Hdom. rewrite in_app_iff. simpl. rewrite in_app_iff.
          destruct Hy as [Hy|[Hy|Hy]]; auto. }
        destruct Hy as [Hy|[Hy|Hy]].
        -- destruct (lt_negtrans x y best Dx Dy Db E) as [?|Hyb]; [assumption|].
           exfalso. exact (lt_asym _ _ Db Dy (Hpre y Hy) Hyb).
        -- now subst y.
        -- destruct (lt_negtrans x y best Dx Dy Db E) as [?|Hyb]; [assumption|].
           exfalso. exact (Hmid y Hy Hyb).
      * intros y [].
    + assert (Hx : ~ lt x best) by (rewrite <- ltb_lt, E; discriminate).
      replace (pre ++ best :: mid ++ x :: t)
        with (pre ++ best :: (mid ++ [x]) ++ t)
        by (rewrite <- app_assoc; reflexivity).
      apply IH.
      * rewrite <- app_assoc. simpl. now apply Forall_forall.
      * assumption.
      * intros y Hy. apply in_app_iff in Hy. destruct Hy as [Hy|[Hy|[]]].
        -- now apply Hmid.
        -- now subst y.
Qed.

Lemma scan_first_min (best : A) (l : list A) :
  Forall dom (best :: l) -> first_min lt (best :: l) (scan ltb best l).
Proof.
  intros Hd.
  apply (scan_first_min_gen l [] best []); simpl; [assumption| |]; intros x [].
Qed.
End Scan.

Lemma first_min_In {A : Type} (lt : A -> A -> Prop) (l : list A) (m : A) :
  first_min lt l m -> In m l.
Proof.
  intros (pre & post & -> & _). apply in_app_iff. simpl. auto.
Qed.

(** *** The fast matcher *)

Lemma min_scan_scan {A : Type} (key : A -> Z) (l : list A) :
  forall best, min_scan key best l = scan (fun x y => key x <? key y) best l.
Proof.
  induction l as [|x t IH]; intros best; simpl; [reflexivity|].
  rewrite !IH. reflexivity.
Qed.

Lemma closest_lego_color_first_min (pixel_rgb : RGB) :
  exists c, closest_lego_color pixel_rgb = Ok (rgb c) /\
            first_min (closer pixel_rgb) LEGO_COLORS c.
Proof.
  unfold closest_lego_color.
  destruct LEGO_COLORS as [|c0 rest] eqn:E; [discriminate|].
  simpl. rewrite min_scan_scan.
  eexists. split; [reflexivity|].
  apply scan_first_min with (dom := fun _ => True).
  - intros x y. unfold closer. apply Z.ltb_lt.
  - unfold closer. intros. lia.
  - unfold closer. intros. lia.
  - apply Forall_forall. trivial.
Qed.

Lemma distance_nonneg (c1 c2 : RGB) : 0 <= distance c1 c2.
Proof.
  destruct c1 as [[r1 g1] b1], c2 as [[r2 g2] b2]. unfold distance. nia.
Qed.

Lemma distance_zero (c1 c2 : RGB) : distance c1 c2 = 0 <-> c1 = c2.
Proof.
  destruct c1 as [[r1 g1] b1], c2 as [[r2 g2] b2]. unfold distance. split.
  - intros Hd.
    assert (r1 = r2) by nia. assert (g1 = g2) by nia. assert (b1 = b2) by nia.
    congruence.
  - intros Heq. injection Heq as -> -> ->. rewrite !Z.sub_diag. reflexivity.
Qed.

(** ** The order of binary64 numbers *)

Lemma SFltb_key (x y : spec_float) :
  x <> S754_nan -> y <> S754_nan ->
  (SFltb x y = true <-> lexlt (sf_key x) (sf_key y)).
Proof.
  intros Hx Hy.
  destruct x as [sx|sx| |sx mx ex], y as [sy|sy| |sy my ey]; try congruence;
    try destruct sx; try destruct sy; unfold SFltb; simpl;
    try (split; [discriminate | lia]); try (split; [lia | reflexivity]);
    change (Pos.compare_cont Eq mx my) with (mx ?= my)%positive;
    destruct (Z.compare_spec ex ey); destruct (Pos.compare_spec mx my); simpl;
    split; intros; try discriminate; try reflexivity; lia.
Qed.

Lemma is_nan_Prim2SF (x : float) : is_nan x = false -> Prim2SF x <> S754_nan.
Proof.
  unfold is_nan. rewrite eqb_spec. intros Hn E. rewrite E in Hn. discriminate.
Qed.

Lemma ltb_fkey (x y : float) :
  is_nan x = false -> is_nan y = false ->
  ((x <? y)%float = true <-> lexlt (fkey x) (fkey y)).
Proof.
  intros Hx Hy. rewrite ltb_spec.
  apply SFltb_key; now apply is_nan_Prim2SF.
Qed.

Lemma ltb_not_nan (x y : float) :
  (x <? y)%float = true -> is_nan x = false /\ is_nan y = false.
Proof.
  unfold is_nan. rewrite ltb_spec, !eqb_spec. unfold SFltb, SFeqb.
  destruct (Prim2SF x) as [sx|sx| |sx mx ex], (Prim2SF y) as [sy|sy| |sy my ey];
    simpl; try discriminate; intros _;
    try destruct sx; try destruct sy; simpl; auto;
    rewrite ?Z.compare_refl; change (Pos.compare_cont Eq ?m ?m) with (m ?= m)%positive;
    rewrite ?Pos.compare_refl; auto.
Qed.

Lemma ltb_asym (x y : float) :
  (x <? y)%float = true -> (y <? x)%float = true -> False.
Proof.
  intros H1 H2. destruct (ltb_not_nan _ _ H1) as [Nx Ny].
  apply ltb_fkey in H1, H2; try assumption.
  destruct (fkey x) as [[a1 b1] c1], (fkey y) as [[a2 b2] c2]. simpl in *. lia.
Qed.

Lemma ltb_negtrans (x y z : float) :
  is_nan y = false ->
  (x <? z)%float = true -> (x <? y)%float = true \/ (y <? z)%float = true.
Proof.
  intros Ny H1. destruct (ltb_not_nan _ _ H1) as [Nx Nz].
  rewrite !ltb_fkey by assumption. apply ltb_fkey in H1; try assumption.
  destruct (fkey x) as [[a1 b1] c1], (fkey y) as [[a2 b2] c2],
           (fkey z) as [[a3 b3] c3].
  simpl in *. lia.
Qed.

(** Only [infinity] itself is neither NaN nor below [infinity]. *)
Lemma not_below_infinity (x : float) :
  is_nan x = false -> (x <? infinity)%float = false -> x = infinity.
Proof.
  intros Nx Hlt. apply Prim2SF_inj.
  pose proof (is_nan_Prim2SF x Nx) as Hn.
  rewrite ltb_spec in Hlt. change (Prim2SF infinity) with (S754_infinity false) in *.
  destruct (Prim2SF x) as [sx|sx| |sx mx ex]; try congruence;
    try destruct sx; try discriminate; reflexivity.
Qed.

(** A zero (of either sign) is below whatever [0] is below, and nothing
    above [0] is below a zero. *)
Lemma zero_ltb (z m : float) :
  (z =? 0)%float = true -> (0 <? m)%float = true -> (z <? m)%float = true.
Proof.
  rewrite eqb_spec, !ltb_spec. change (Prim2SF 0) with (S754_zero false).
  destruct (Prim2SF z) as [sz|sz| |sz mz ez]; try destruct sz; try discriminate;
    auto.
Qed.

Lemma ltb_zero (z m : float) :
  (z =? 0)%float = true -> (m <? z)%float = true -> (m <? 0)%float = true.
Proof.
  rewrite eqb_spec, !ltb_spec. change (Prim2SF 0) with (S754_zero false).
  destruct (Prim2SF z) as [sz|sz| |sz mz ez]; try destruct sz; try discriminate;
    auto.
Qed.

(** *** The accurate matcher *)

Section LabMatch.
Context `{Colormath}.

Lemma lab_fold_In (target : LabColor) (P : list lego_color) (l : list lego_color) :
  forall st, In (fst st) P -> (forall x, In x l -> In x P) ->
             In (fst (fold_left (lab_step target) l st)) P.
Proof.
  induction l as [|x t IH]; intros [b d] Hb Hl; simpl; [assumption|].
  apply IH.
  - destruct (_ <? d)%float; simpl; [apply Hl; simpl; auto | assumption].
  - intros y Hy. apply Hl. simpl. auto.
Qed.

(** Whatever the metric returns, the accurate matcher answers with the
    colour of a palette entry. *)
Lemma closest_lego_color_lab_In (pixel_rgb : RGB) :
  exists c, closest_lego_color_lab pixel_rgb = Ok (rgb c) /\ In c LEGO_COLORS.
Proof.
  unfold closest_lego_color_lab.
  set (target := rgb_to_lab pixel_rgb).
  destruct LEGO_COLORS as [|c0 rest] eqn:E; [discriminate|].
  cbv beta iota delta [bind].
  assert (Hin : In (fst (fold_left (lab_step target) (c0 :: rest) (c0, infinity)))
                   (c0 :: rest)).
  { apply lab_fold_In; [left; reflexivity | auto]. }
  destruct (fold_left _ _ _) as [c d]. exists c. split; [reflexivity | exact Hin].
Qed.

Lemma lab_fold_scan (pixel_rgb : RGB) (l : list lego_color) :
  forall best,
    fold_left (lab_step (rgb_to_lab pixel_rgb)) l (best, delta_to pixel_rgb best)
    = (scan (perceptually_closerb pixel_rgb) best l,
       delta_to pixel_rgb (scan (perceptually_closerb pixel_rgb) best l)).
Proof.
  induction l as [|x t IH]; intros best; [reflexivity|].
  cbn [fold_left scan]. unfold lab_step at 2. fold (delta_to pixel_rgb x).
  change (perceptually_closerb pixel_rgb x best)
    with (delta_to pixel_rgb x <? delta_to pixel_rgb best)%float.
  destruct (delta_to pixel_rgb x <? delta_to pixel_rgb best)%float; apply IH.
Qed.

(** When no difference is NaN, the accurate matcher answers with the
    first palette entry of minimal difference. *)
Lemma closest_lego_color_lab_first_min (pixel_rgb : RGB) :
  (forall c, In c LEGO_COLORS -> is_nan (delta_to pixel_rgb c) = false) ->
  exists c, closest_lego_color_lab pixel_rgb = Ok (rgb c) /\
            first_min (perceptually_closer pixel_rgb) LEGO_COLORS c.
Proof.
  intros Hnan. unfold closest_lego_color_lab.
  destruct LEGO_COLORS as [|c0 rest] eqn:E; [discriminate|].
  cbv beta iota delta [bind]. cbn [fold_left].
  assert (H0 : lab_step (rgb_to_lab pixel_rgb) (c0, infinity) c0
               = (c0, delta_to pixel_rgb c0)).
  { unfold lab_step. fold (delta_to pixel_rgb c0).
    destruct (delta_to pixel_rgb c0 <? infinity)%float eqn:L; [reflexivity|].
    f_equal. symmetry. apply not_below_infinity; [|assumption].
    apply Hnan. simpl. auto. }
  rewrite H0, lab_fold_scan.
  eexists. split; [reflexivity|].
  apply scan_first_min
    with (dom := fun c => is_nan (delta_to pixel_rgb c) = false).
  - intros x y. reflexivity.
  - intros x y _ _. unfold perceptually_closer. intros H1 H2.
    exact (ltb_asym _ _ H1 H2).
  - intros x y z _ Dy _. unfold perceptually_closer. now apply ltb_negtrans.
  - apply Forall_forall. exact Hnan.
Qed.
End LabMatch.

(** ** Filling regions of an image *)

Lemma filled_union (R1 R2 R3 : Z -> Z -> bool) (C : Z -> Z -> pixel8)
      (r0 r1 r2 : Image) :
  filled R1 C r0 r1 -> filled R2 C r1 r2 ->
  (forall a b, R3 a b = R1 a b || R2 a b) ->
  filled R3 C r0 r2.
Proof.
  intros (W1 & H1 & P1) (W2 & H2 & P2) HR. repeat split; try congruence.
  intros a b. rewrite P2, P1, HR.
  destruct (R1 a b), (R2 a b); reflexivity.
Qed.

Lemma filled_ext (R R' : Z -> Z -> bool) (C C' : Z -> Z -> pixel8) (r0 r : Image) :
  filled R C r0 r ->
  (forall a b, R' a b = R a b) ->
  (forall a b, R a b = true -> C a b = C' a b) ->
  filled R' C' r0 r.
Proof.
  intros (W1 & H1 & P1) HR HC. repeat split; try assumption.
  intros a b. rewrite P1, HR. destruct (R a b) eqn:E; [now apply HC | reflexivity].
Qed.

(** A loop whose iteration [i] repaints region [S i] has, after [n]
    iterations, repainted the union [R n] of these regions. *)
Lemma fill_loop (R S : Z -> Z -> Z -> bool) (C : Z -> Z -> pixel8)
      (body : Z -> Image -> result Image) (n : Z) (r0 : Image) :
  0 <= n ->
  (forall a b, R 0 a b = false) ->
  (forall i a b, 0 <= i < n -> R (i + 1) a b = R i a b || S i a b) ->
  (forall i r, 0 <= i < n -> width r = width r0 -> height r = height r0 ->
               exists r', body i r = Ok r' /\ filled (S i) C r r') ->
  exists r', for_each (range n) body r0 = Ok r' /\ filled (R n) C r0 r'.
Proof.
  intros Hn HR0 HRS Hbody.
  apply (for_each_range (fun i r => filled (R i) C r0 r)); [assumption | |].
  - repeat split; try reflexivity. intros a b. now rewrite HR0.
  - intros i r Hi Hf. destruct Hf as (Wr & Hr & Pr).
    destruct (Hbody i r Hi Wr Hr) as (r' & Hb & Hf').
    exists r'. split; [assumption|].
    apply (filled_union (R i) (S i) _ C r0 r r'); auto.
    repeat split; assumption.
Qed.

Lemma locate_inside (im : Image) (x y : Z) :
  0 <= x < width im -> 0 <= y < height im -> locate im (x, y) = Ok (x, y).
Proof.
  intros Hx Hy. unfold locate. zbool.
Qed.

Lemma getpixel_inside (im : Image) (x y : Z) :
  0 <= x < width im -> 0 <= y < height im ->
  getpixel im (x, y) = Ok (to_rgb (px im x y)).
Proof.
  intros Hx Hy. unfold getpixel. rewrite locate_inside by assumption. reflexivity.
Qed.

(** A successful [getpixel] reads a stored pixel of the image. *)
Lemma getpixel_Ok (im : Image) (xy : Z * Z) (v : RGB) :
  getpixel im xy = Ok v ->
  exists a b, 0 <= a < width im /\ 0 <= b < height im /\ v = to_rgb (px im a b).
Proof.
  destruct xy as [x y]. unfold getpixel, locate.
  set (x' := if x <? 0 then width im + x else x).
  set (y' := if y <? 0 then height im + y else y).
  destruct (x' <? 0) eqn:E1; [discriminate|].
  destruct (width im <=? x') eqn:E2; [discriminate|].
  destruct (y' <? 0) eqn:E3; [discriminate|].
  destruct (height im <=? y') eqn:E4; [discriminate|].
  simpl. intros [= <-]. exists x', y'.
  apply Z.ltb_ge in E1, E3. apply Z.leb_gt in E2, E4. auto.
Qed.

Lemma putpixel_filled (r : Image) (x y : Z) (c : RGB) :
  0 <= x < width r -> 0 <= y < height r ->
  exists r', putpixel r (x, y) c = Ok r' /\
             filled (fun a b => (a =? x) && (b =? y)) (fun _ _ => of_rgb c) r r'.
Proof.
  intros Hx Hy. unfold putpixel. rewrite locate_inside by assumption.
  eexists. split; [reflexivity|]. repeat split.
Qed.

(** The two inner loops of [lego_pixelate] paint one block. *)
Lemma fill_block (r0 : Image) (x0 y0 p : Z) (c : RGB) :
  0 <= p -> 0 <= x0 -> 0 <= y0 ->
  x0 + p <= width r0 -> y0 + p <= height r0 ->
  exists r',
    for_each (range p) (fun dy result =>
      for_each (range p) (fun dx result =>
        putpixel result (x0 + dx, y0 + dy) c) result) r0 = Ok r' /\
    filled (block x0 y0 p) (fun _ _ => of_rgb c) r0 r'.
Proof.
  intros Hp Hx0 Hy0 Hw Hh.
  apply (fill_loop
           (fun dy a b => (x0 <=? a) && (a <? x0 + p) && (y0 <=? b) && (b <? y0 + dy))
           (fun dy a b => (b =? y0 + dy) && (x0 <=? a) && (a <? x0 + p)));
    [assumption | | |].
  - intros a b. zbool.
  - intros dy a b Hdy. zbool.
  - intros dy r Hdy Wr Hr.
    apply (fill_loop
             (fun dx a b => (b =? y0 + dy) && (x0 <=? a) && (a <? x0 + dx))
             (fun dx a b => (a =? x0 + dx) && (b =? y0 + dy)));
      [assumption | | |].
    + intros a b. zbool.
    + intros dx a b Hdx. zbool.
    + intros dx r1 Hdx Wr1 Hr1. apply putpixel_filled; lia.
Qed.

(** ** What [lego_pixelate] computes *)

Lemma div_block (p x a : Z) : 0 < p -> x * p <= a < x * p + p -> a / p = x.
Proof.
  intros Hp Ha. symmetry. apply (Z.div_unique a p x (a - x * p)); lia.
Qed.

Section Render.
Context `{Colormath} `{Resampler} `{Memory}.

(** With the palette on, the chosen colour is a palette colour. *)
Lemma block_color_palette (high_accuracy : bool) (orig_color : RGB) :
  exists c, block_color true high_accuracy orig_color = Ok (rgb c) /\
            In c LEGO_COLORS.
Proof.
  unfold block_color. destruct high_accuracy.
  - apply closest_lego_color_lab_In.
  - destruct (closest_lego_color_first_min orig_color) as (c & Hc & Hm).
    exists c. split; [assumption | exact (first_min_In _ _ _ Hm)].
Qed.

Lemma block_color_Ok (use_lego_palette high_accuracy : bool) (orig_color : RGB) :
  exists c, block_color use_lego_palette high_accuracy orig_color = Ok c.
Proof.
  destruct use_lego_palette.
  - destruct (block_color_palette high_accuracy orig_color) as (c & Hc & _).
    eauto.
  - simpl. eauto.
Qed.

Lemma resize_Ok (img : Image) (w h : Z) :
  0 < w -> 0 < h -> accepts (w, h) ->
  exists small, resize img (w, h) = Ok small /\ width small = w /\ height small = h.
Proof.
  intros Hw Hh (Fw & Fh & Hm). cbn [fst snd] in *. unfold resize.
  rewrite Fw, Fh, Hm. cbn [andb negb].
  destruct ((width img =? w) && (height img =? h)) eqn:E.
  - apply andb_true_iff in E. destruct E as [E1 E2].
    apply Z.eqb_eq in E1, E2. eauto.
  - replace ((w <? 1) || (h <? 1)) with false by zbool. eauto.
Qed.

Lemma Image_new_Ok (w h : Z) :
  0 <= w -> 0 <= h -> accepts (w, h) ->
  Image_new (w, h) = Ok (mk_image w h (fun _ _ => (x00, x00, x00))).
Proof.
  intros Hw Hh (Fw & Fh & Hm). cbn [fst snd] in *. unfold Image_new.
  rewrite Fw, Fh, Hm. replace ((w <? 0) || (h <? 0)) with false by zbool.
  reflexivity.
Qed.

(** The loops of [lego_pixelate] on a grid of [w] by [h] cells of side
    [p]: every pixel of the result is the pixel of its cell. *)
Lemma paint_grid (small r0 : Image) (p w h : Z) (up ha : bool) :
  0 < p -> 0 < w -> 0 < h ->
  width small = w -> height small = h ->
  width r0 = w * p -> height r0 = h * p ->
  exists out,
    for_each (range h) (fun y result =>
      for_each (range w) (fun x result =>
        orig_color <- getpixel small (x, y) ;;
        color <- block_color up ha orig_color ;;
        for_each (range p) (fun dy result =>
          for_each (range p) (fun dx result =>
            putpixel result (x * p + dx, y * p + dy) color)
          result)
        result)
      result)
    r0 = Ok out /\
    filled (fun a b => (0 <=? a) && (a <? w * p) && (0 <=? b) && (b <? h * p))
           (fun a b => cell_pixel up ha small (a / p) (b / p)) r0 out.
Proof.
  intros Hp Hw Hh Ws Hs Wr Hr.
  apply (fill_loop
           (fun y a b => (0 <=? a) && (a <? w * p) && (0 <=? b) && (b <? y * p))
           (fun y a b => (0 <=? a) && (a <? w * p) && (y * p <=? b) && (b <? y * p + p)));
    [lia | | |].
  - intros a b. zbool.
  - intros y a b Hy. zbool.
  - intros y r Hy Wr1 Hr1.
    apply (fill_loop
             (fun x a b => (0 <=? a) && (a <? x * p) && (y * p <=? b) && (b <? y * p + p))
             (fun x a b => block (x * p) (y * p) p a b));
      [lia | | |].
    + intros a b. zbool.
    + intros x a b Hx. unfold block. zbool.
    + intros x r2 Hx Wr2 Hr2.
      rewrite getpixel_inside by lia. cbv beta iota delta [bind].
      destruct (block_color_Ok up ha (to_rgb (px small x y))) as (c & Hc).
      rewrite Hc.
      destruct (fill_block r2 (x * p) (y * p) p c) as (r3 & Hl & Hf); try nia.
      exists r3. split; [exact Hl|].
      apply (filled_ext _ _ _ _ _ _ Hf); [reflexivity|].
      intros a b Hab. unfold block in Hab.
      rewrite !andb_true_iff in Hab. destruct Hab as (((A1 & A2) & B1) & B2).
      apply Z.leb_le in A1, B1. apply Z.ltb_lt in A2, B2.
      unfold cell_pixel.
      rewrite (div_block p x a), (div_block p y b) by lia.
      rewrite Hc. reflexivity.
Qed.

(** For a positive brick size and grid that Pillow accepts: the call
    returns, the result has the size of the grid times the brick, and each
    of its pixels is the pixel of the cell it lies in. *)
Lemma lego_pixelate_spec (img : Image) (p w h : Z) (up ha : bool) :
  0 < p -> 0 < w -> 0 < h ->
  accepts (w, h) -> accepts (w * p, h * p) ->
  exists small out,
    resize img (w, h) = Ok small /\ width small = w /\ height small = h /\
    lego_pixelate img p (w, h) up ha = Ok out /\
    width out = w * p /\ height out = h * p /\
    forall a b, 0 <= a < w * p -> 0 <= b < h * p ->
                px out a b = cell_pixel up ha small (a / p) (b / p).
Proof.
  intros Hp Hw Hh Agrid Aout.
  destruct (resize_Ok img w h Hw Hh Agrid) as (small & Hres & Ws & Hs).
  unfold lego_pixelate. rewrite Hres. cbn [bind fst snd].
  rewrite Image_new_Ok by (try assumption; nia). cbn [bind].
  set (r0 := mk_image (w * p) (h * p) (fun _ _ => (x00, x00, x00))).
  destruct (paint_grid small r0 p w h up ha)
    as (out & Hout & Wo & Ho & Po); try assumption; try reflexivity.
  exists small, out. repeat split; try assumption.
  intros a b Ha Hb. rewrite Po.
  replace ((0 <=? a) && (a <? w * p) && (0 <=? b) && (b <? h * p)) with true
    by zbool.
  reflexivity.
Qed.
End Render.

(** * Properties of the specification *)

(** ** Mosaic renderer *)

(** C1. Palette containment: for a positive brick size and grid whose
    sizes Pillow accepts, with the palette on, [lego_pixelate] returns an
    image, and every colour that can be read from it is exactly the RGB
    triple of a palette entry, in fast and in accurate mode alike. *)
Theorem lego_pixelate_palette_containment `{Colormath} `{Resampler} `{Memory}
        (img : Image) (pixel_size w h : Z) (high_accuracy : bool) :
  0 < pixel_size -> 0 < w -> 0 < h ->
  accepts (w, h) -> accepts (w * pixel_size, h * pixel_size) ->
  exists out,
    lego_pixelate img pixel_size (w, h) true high_accuracy = Ok out /\
    forall xy v, getpixel out xy = Ok v ->
                 exists c, In c LEGO_COLORS /\ v = rgb c.
Proof.
  intros Hp Hw Hh Agrid Aout.
  destruct (lego_pixelate_spec img pixel_size w h true high_accuracy Hp Hw Hh Agrid Aout)
    as (small & out & _ & _ & _ & Hout & Wo & Ho & Po).
  exists out. split; [assumption|].
  intros xy v Hv. apply getpixel_Ok in Hv. destruct Hv as (a & b & Ha & Hb & ->).
  rewrite Po by lia. unfold cell_pixel.
  destruct (block_color_palette high_accuracy
              (to_rgb (px small (a / pixel_size) (b / pixel_size))))
    as (c & Hc & Hin).
  rewrite Hc. exists c. split; [assumption|].
  apply to_rgb_of_rgb. now apply palette_in_gamut.
Qed.

Lemma lego_pixelate_palette_containment_witness :
  0 < 2 /\ 0 < 1 /\ 0 < 1 /\
  exists out,
    @lego_pixelate Examples.euclid Examples.nearest Examples.plenty Examples.quad 2 (1, 1) true true
    = Ok out /\
    forall xy v, getpixel out xy = Ok v ->
                 exists c, In c LEGO_COLORS /\ v = rgb c.
Proof.
  repeat (split; [lia|]).
  apply (@lego_pixelate_palette_containment Examples.euclid Examples.nearest Examples.plenty
           Examples.quad 2 1 1 true);
    first [lia | repeat split; reflexivity].
Defined.

(** C2. Dimension invariant: for a positive brick size [p] and grid
    [(w, h)] whose sizes Pillow accepts, and any flags, [lego_pixelate]
    returns an image of width [w * p] and height [h * p]. *)
Theorem lego_pixelate_dimensions `{Colormath} `{Resampler} `{Memory}
        (img : Image) (pixel_size w h : Z) (use_lego_palette high_accuracy : bool) :
  0 < pixel_size -> 0 < w -> 0 < h ->
  accepts (w, h) -> accepts (w * pixel_size, h * pixel_size) ->
  exists out,
    lego_pixelate img pixel_size (w, h) use_lego_palette high_accuracy = Ok out /\
    width out = w * pixel_size /\ height out = h * pixel_size.
Proof.
  intros Hp Hw Hh Agrid Aout.
  destruct (lego_pixelate_spec img pixel_size w h use_lego_palette high_accuracy
              Hp Hw Hh Agrid Aout)
    as (small & out & _ & _ & _ & Hout & Wo & Ho & _).
  exists out. auto.
Qed.

Lemma lego_pixelate_dimensions_witness :
  0 < 5 /\ 0 < 3 /\ 0 < 4 /\
  exists out,
    @lego_pixelate Examples.euclid Examples.nearest Examples.plenty Examples.quad 5 (3, 4) true false
    = Ok out /\
    width out = 3 * 5 /\ height out = 4 * 5.
Proof.
  repeat (split; [lia|]).
  apply (@lego_pixelate_dimensions Examples.euclid Examples.nearest Examples.plenty
           Examples.quad 5 3 4 true false);
    first [lia | repeat split; reflexivity].
Defined.

(** C3. Flatness: for a positive brick size [p] and a positive grid whose
    sizes Pillow accepts, and any flags, every pixel [(x*p + dx, y*p + dy)]
    of the block of cell [(x, y)] has the colour of the block's top-left
    pixel [(x*p, y*p)]. *)
Theorem lego_pixelate_flat_blocks `{Colormath} `{Resampler} `{Memory}
        (img : Image) (pixel_size w h : Z) (use_lego_palette high_accuracy : bool) :
  0 < pixel_size -> 0 < w -> 0 < h ->
  accepts (w, h) -> accepts (w * pixel_size, h * pixel_size) ->
  exists out,
    lego_pixelate img pixel_size (w, h) use_lego_palette high_accuracy = Ok out /\
    forall x y dx dy,
      0 <= x < w -> 0 <= y < h -> 0 <= dx < pixel_size -> 0 <= dy < pixel_size ->
      exists v,
        getpixel out (x * pixel_size, y * pixel_size) = Ok v /\
        getpixel out (x * pixel_size + dx, y * pixel_size + dy) = Ok v.
Proof.
  intros Hp Hw Hh Agrid Aout.
  destruct (lego_pixelate_spec img pixel_size w h use_lego_palette high_accuracy
              Hp Hw Hh Agrid Aout)
    as (small & out & _ & _ & _ & Hout & Wo & Ho & Po).
  exists out. split; [assumption|].
  intros x y dx dy Hx Hy Hdx Hdy.
  exists (to_rgb (cell_pixel use_lego_palette high_accuracy small x y)).
  rewrite !getpixel_inside by nia. rewrite !Po by nia.
  rewrite (div_block pixel_size x (x * pixel_size)) by lia.
  rewrite (div_block pixel_size y (y * pixel_size)) by lia.
  rewrite (div_block pixel_size x (x * pixel_size + dx)) by lia.
  rewrite (div_block pixel_size y (y * pixel_size + dy)) by lia.
  split; reflexivity.
Qed.

Lemma lego_pixelate_flat_blocks_witness :
  0 < 3 /\ 0 < 2 /\ 0 < 2 /\
  exists out,
    @lego_pixelate Examples.euclid Examples.nearest Examples.plenty Examples.quad 3 (2, 2) false true
    = Ok out /\
    forall x y dx dy,
      0 <= x < 2 -> 0 <= y < 2 -> 0 <= dx < 3 -> 0 <= dy < 3 ->
      exists v,
        getpixel out (x * 3, y * 3) = Ok v /\
        getpixel out (x * 3 + dx, y * 3 + dy) = Ok v.
Proof.
  repeat (split; [lia|]).
  apply (@lego_pixelate_flat_blocks Examples.euclid Examples.nearest Examples.plenty
           Examples.quad 3 2 2 false true);
    first [lia | repeat split; reflexivity].
Defined.

(** C8. Passthrough: with the palette off, for a positive brick size and
    grid whose sizes Pillow accepts, every pixel of the block of cell
    [(x, y)] is exactly the pixel [(x, y)] of the image that [resize]
    produced. *)
Theorem lego_pixelate_passthrough `{Colormath} `{Resampler} `{Memory}
        (img : Image) (pixel_size w h : Z) (high_accuracy : bool) :
  0 < pixel_size -> 0 < w -> 0 < h ->
  accepts (w, h) -> accepts (w * pixel_size, h * pixel_size) ->
  exists small out,
    resize img (w, h) = Ok small /\
    lego_pixelate img pixel_size (w, h) false high_accuracy = Ok out /\
    forall x y dx dy,
      0 <= x < w -> 0 <= y < h -> 0 <= dx < pixel_size -> 0 <= dy < pixel_size ->
      exists v,
        getpixel small (x, y) = Ok v /\
        getpixel out (x * pixel_size + dx, y * pixel_size + dy) = Ok v.
Proof.
  intros Hp Hw Hh Agrid Aout.
  destruct (lego_pixelate_spec img pixel_size w h false high_accuracy Hp Hw Hh Agrid Aout)
    as (small & out & Hres & Ws & Hs & Hout & Wo & Ho & Po).
  exists small, out. repeat split; try assumption.
  intros x y dx dy Hx Hy Hdx Hdy.
  exists (to_rgb (px small x y)).
  rewrite !getpixel_inside by nia. rewrite Po by nia.
  rewrite (div_block pixel_size x (x * pixel_size + dx)) by lia.
  rewrite (div_block pixel_size y (y * pixel_size + dy)) by lia.
  unfold cell_pixel, block_color. rewrite of_rgb_to_rgb.
  split; reflexivity.
Qed.

Lemma lego_pixelate_passthrough_witness :
  0 < 3 /\ 0 < 2 /\ 0 < 2 /\
  exists small out,
    @resize Examples.nearest Examples.plenty Examples.quad (2, 2) = Ok small /\
    @lego_pixelate Examples.euclid Examples.nearest Examples.plenty Examples.quad 3 (2, 2) false true
    = Ok out /\
    forall x y dx dy,
      0 <= x < 2 -> 0 <= y < 2 -> 0 <= dx < 3 -> 0 <= dy < 3 ->
      exists v,
        getpixel small (x, y) = Ok v /\
        getpixel out (x * 3 + dx, y * 3 + dy) = Ok v.
Proof.
  repeat (split; [lia|]).
  apply (@lego_pixelate_passthrough Examples.euclid Examples.nearest Examples.plenty
           Examples.quad 3 2 2 true);
    first [lia | repeat split; reflexivity].
Defined.

(** C10. With the palette off, [high_accuracy] has no influence: the two
    runs that differ only in that flag give the same result. *)
Theorem lego_pixelate_accuracy_irrelevant `{Colormath} `{Resampler} `{Memory}
        (img : Image) (pixel_size : Z) (grid_size : Z * Z) :
  lego_pixelate img pixel_size grid_size false true
  = lego_pixelate img pixel_size grid_size false false.
Proof.
  reflexivity.
Qed.

(** ** Colour matchers *)

Lemma eqb_not_nan (x y : float) : (x =? y)%float = true -> is_nan x = false.
Proof.
  unfold is_nan. rewrite !eqb_spec. unfold SFeqb.
  destruct (Prim2SF x) as [sx|sx| |sx mx ex], (Prim2SF y) as [sy|sy| |sy my ey];
    simpl; try discriminate; intros _;
    try destruct sx; simpl; auto;
    rewrite ?Z.compare_refl; change (Pos.compare_cont Eq ?m ?m) with (m ?= m)%positive;
    rewrite ?Pos.compare_refl; auto.
Qed.

Lemma RGB_eq_dec (c1 c2 : RGB) : {c1 = c2} + {c1 <> c2}.
Proof.
  repeat decide equality.
Qed.

(** An element of a list with a first minimum is before it, is it, or is
    after it. *)
Lemma first_min_cases {A : Type} (lt : A -> A -> Prop) (l : list A) (m e : A) :
  first_min lt l m -> In e l -> lt m e \/ e = m \/ ~ lt e m.
Proof.
  intros (pre & post & -> & Hpre & Hpost) He.
  apply in_app_iff in He. destruct He as [He|[He|He]]; auto.
Qed.

(** C6. Exact hits: when the pixel is the RGB triple of palette entry [e],
    the fast matcher returns that triple; so does the accurate matcher,
    given that the CIE2000 difference of the colour to itself is zero and
    that its difference to every palette colour other than its own is
    above zero. *)
Theorem exact_hit_returns_entry `{Colormath} (e : lego_color) :
  In e LEGO_COLORS ->
  (delta_to (rgb e) e =? 0)%float = true ->
  (forall c, In c LEGO_COLORS -> rgb c <> rgb e ->
             (0 <? delta_to (rgb e) c)%float = true) ->
  closest_lego_color (rgb e) = Ok (rgb e) /\
  closest_lego_color_lab (rgb e) = Ok (rgb e).
Proof.
  intros He Hzero Hpos. split.
  - destruct (closest_lego_color_first_min (rgb e)) as (c & Hc & Hm).
    rewrite Hc. f_equal.
    assert (D0 : distance (rgb e) (rgb e) = 0) by now apply distance_zero.
    pose proof (distance_nonneg (rgb e) (rgb c)) as Dc.
    symmetry. apply distance_zero.
    destruct (first_min_cases _ _ _ _ Hm He) as [Hlt|[->|Hge]]; unfold closer in *; lia.
  - assert (Hsame : forall c, rgb c = rgb e -> delta_to (rgb e) c = delta_to (rgb e) e).
    { intros c Hc. unfold delta_to. now rewrite Hc. }
    destruct (closest_lego_color_lab_first_min (rgb e)) as (c & Hc & Hm).
    { intros c Hin. destruct (RGB_eq_dec (rgb c) (rgb e)) as [Heq|Hne].
      - rewrite (Hsame c Heq). exact (eqb_not_nan _ _ Hzero).
      - exact (proj2 (ltb_not_nan _ _ (Hpos c Hin Hne))). }
    rewrite Hc. f_equal.
    destruct (RGB_eq_dec (rgb c) (rgb e)) as [Heq|Hne]; [assumption|exfalso].
    pose proof (Hpos c (first_min_In _ _ _ Hm) Hne) as Hc0.
    destruct (first_min_cases _ _ _ _ Hm He) as [Hlt|[->|Hge]];
      unfold perceptually_closer in *.
    + exact (ltb_asym _ _ Hc0 (ltb_zero _ _ Hzero Hlt)).
    + now apply Hne.
    + apply Hge. now apply zero_ltb.
Qed.

Lemma RGB_eqb_true (c1 c2 : RGB) : RGB_eqb c1 c2 = true -> c1 = c2.
Proof.
  destruct c1 as [[r1 g1] b1], c2 as [[r2 g2] b2]. unfold RGB_eqb.
  rewrite !andb_true_iff, !Z.eqb_eq. intros [[-> ->] ->]. reflexivity.
Defined.

Lemma exact_hit_returns_entry_witness :
  @closest_lego_color (rgb bright_red) = Ok (rgb bright_red) /\
  @closest_lego_color_lab Examples.euclid (rgb bright_red) = Ok (rgb bright_red).
Proof.
  apply (@exact_hit_returns_entry Examples.euclid bright_red).
  - do 2 right. left. reflexivity.
  - vm_compute. reflexivity.
  - intros c Hin Hne.
    assert (Hall : forallb (fun c => RGB_eqb (rgb c) (rgb bright_red)
                         || (0 <? @delta_to Examples.euclid (rgb bright_red) c)%float)
                     LEGO_COLORS = true) by (vm_compute; reflexivity).
    rewrite forallb_forall in Hall. specialize (Hall c Hin).
    apply orb_true_iff in Hall. destruct Hall as [Heq|Hlt]; [|assumption].
    exfalso. apply Hne. now apply RGB_eqb_true.
Defined.

(** C7. Stable minimum scan: the fast matcher returns the RGB of the first
    palette entry, in declaration order, whose squared RGB distance to the
    pixel is minimal over the palette; the accurate matcher does the same
    for the CIE2000 difference, given that no difference is NaN. *)
Theorem matchers_return_first_minimum `{Colormath} (pixel_rgb : RGB) :
  (forall c, In c LEGO_COLORS -> is_nan (delta_to pixel_rgb c) = false) ->
  (exists c pre post,
      closest_lego_color pixel_rgb = Ok (rgb c) /\
      LEGO_COLORS = pre ++ c :: post /\
      (forall x, In x LEGO_COLORS ->
                 distance pixel_rgb (rgb c) <= distance pixel_rgb (rgb x)) /\
      (forall x, In x pre ->
                 distance pixel_rgb (rgb c) < distance pixel_rgb (rgb x))) /\
  (exists c pre post,
      closest_lego_color_lab pixel_rgb = Ok (rgb c) /\
      LEGO_COLORS = pre ++ c :: post /\
      (forall x, In x LEGO_COLORS ->
                 (delta_to pixel_rgb x <? delta_to pixel_rgb c)%float = false) /\
      (forall x, In x pre ->
                 (delta_to pixel_rgb c <? delta_to pixel_rgb x)%float = true)).
Proof.
  intros Hnan. split.
  - destruct (closest_lego_color_first_min pixel_rgb)
      as (c & Hc & pre & post & E & Hpre & Hpost).
    exists c, pre, post. repeat split; try assumption.
    intros x Hx. rewrite E in Hx. apply in_app_iff in Hx.
    unfold closer in *. destruct Hx as [Hx|[<-|Hx]].
    + specialize (Hpre x Hx). lia.
    + lia.
    + specialize (Hpost x Hx). lia.
  - destruct (closest_lego_color_lab_first_min pixel_rgb Hnan)
      as (c & Hc & pre & post & E & Hpre & Hpost).
    exists c, pre, post. repeat split; try assumption.
    intros x Hx. rewrite E in Hx. apply in_app_iff in Hx.
    unfold perceptually_closer in *.
    destruct (delta_to pixel_rgb x <? delta_to pixel_rgb c)%float eqn:L;
      [exfalso | reflexivity].
    destruct Hx as [Hx|[<-|Hx]].
    + exact (ltb_asym _ _ L (Hpre x Hx)).
    + exact (ltb_asym _ _ L L).
    + exact (Hpost x Hx L).
Qed.

Lemma matchers_return_first_minimum_witness :
  (exists c pre post,
      closest_lego_color Examples.crimson = Ok (rgb c) /\
      LEGO_COLORS = pre ++ c :: post /\
      (forall x, In x LEGO_COLORS ->
                 distance Examples.crimson (rgb c) <= distance Examples.crimson (rgb x)) /\
      (forall x, In x pre ->
                 distance Examples.crimson (rgb c) < distance Examples.crimson (rgb x))) /\
  (exists c pre post,
      @closest_lego_color_lab Examples.euclid Examples.crimson = Ok (rgb c) /\
      LEGO_COLORS = pre ++ c :: post /\
      (forall x, In x LEGO_COLORS ->
                 (@delta_to Examples.euclid Examples.crimson x
                  <? @delta_to Examples.euclid Examples.crimson c)%float = false) /\
      (forall x, In x pre ->
                 (@delta_to Examples.euclid Examples.crimson c
                  <? @delta_to Examples.euclid Examples.crimson x)%float = true)).
Proof.
  apply (@matchers_return_first_minimum Examples.euclid Examples.crimson).
  intros c Hin.
  assert (Hall : forallb (fun c => negb (is_nan (@delta_to Examples.euclid Examples.crimson c)))
                   LEGO_COLORS = true) by (vm_compute; reflexivity).
  rewrite forallb_forall in Hall. specialize (Hall c Hin).
  now apply negb_true_iff in Hall.
Defined.

(** ** The solid red scenario *)

Lemma nearest_preserves_solid : preserves_solid Examples.nearest.
Proof.
  intros img c [w h] x y Wi Hi Hs Hx Hy. simpl in *. apply Hs.
  - split; [apply Z.div_pos; nia | apply Z.div_lt_upper_bound; nia].
  - split; [apply Z.div_pos; nia | apply Z.div_lt_upper_bound; nia].
Qed.

Lemma solid_is_solid (w h : Z) (c : RGB) : is_solid (Examples.solid w h c) c.
Proof.
  intros a b _ _. reflexivity.
Qed.

(** C5. A solid (255,0,0) image, grid (1,1), brick size 10, palette on,
    fast mode: the result is one 10x10 block of "Bright Red" (180,0,0),
    and that entry is the only one of the 44 palette entries at minimal
    squared RGB distance from (255,0,0). *)
Theorem solid_red_scenario `{Colormath} `{R : Resampler} `{Memory} (img : Image) :
  preserves_solid R ->
  0 < width img -> 0 < height img ->
  is_solid img (255, 0, 0) ->
  exists out,
    lego_pixelate img 10 (1, 1) true false = Ok out /\
    width out = 10 /\ height out = 10 /\
    (forall a b, 0 <= a < 10 -> 0 <= b < 10 -> getpixel out (a, b) = Ok (180, 0, 0)) /\
    In (mk_color "Bright Red" (180, 0, 0)) LEGO_COLORS /\
    List.length LEGO_COLORS = 44%nat /\
    closest_lego_color (255, 0, 0) = Ok (180, 0, 0) /\
    (forall c, In c LEGO_COLORS ->
               c = mk_color "Bright Red" (180, 0, 0) \/
               distance (255, 0, 0) (180, 0, 0) < distance (255, 0, 0) (rgb c)).
Proof.
  intros HR Wi Hi Hs.
  assert (Agrid : accepts (1, 1))
    by (repeat split; try reflexivity; apply can_allocate_small; simpl; lia).
  assert (Aout : accepts (1 * 10, 1 * 10))
    by (repeat split; try reflexivity; apply can_allocate_small; simpl; lia).
  destruct (lego_pixelate_spec img 10 1 1 true false)
    as (small & out & Hres & Ws & Hsm & Hout & Wo & Ho & Po);
    try assumption; try lia.
  assert (Hpx : px small 0 0 = of_rgb (255, 0, 0)).
  { unfold resize in Hres. rewrite (can_allocate_small 1 1) in Hres by lia.
    destruct ((width img =? 1) && (height img =? 1)) eqn:E.
    - injection Hres as <-. apply Hs; lia.
    - simpl in Hres. injection Hres as <-. simpl.
      apply (HR img (255, 0, 0) (1, 1) 0 0); simpl; auto; lia. }
  exists out. repeat split; try assumption.
  - intros a b Ha Hb. rewrite getpixel_inside by lia. rewrite Po by lia.
    rewrite (div_block 10 0 a), (div_block 10 0 b) by lia.
    unfold cell_pixel, block_color. rewrite Hpx. vm_compute. reflexivity.
  - do 2 right. left. reflexivity.
  - apply Forall_forall. unfold LEGO_COLORS.
    repeat (apply Forall_cons;
            [first [left; reflexivity | right; vm_compute; reflexivity]|]).
    apply Forall_nil.
Qed.

Lemma solid_red_scenario_witness :
  exists out,
    @lego_pixelate Examples.euclid Examples.nearest Examples.plenty
                   (Examples.solid 640 480 (255, 0, 0)) 10 (1, 1) true false = Ok out /\
    width out = 10 /\ height out = 10 /\
    (forall a b, 0 <= a < 10 -> 0 <= b < 10 -> getpixel out (a, b) = Ok (180, 0, 0)) /\
    In (mk_color "Bright Red" (180, 0, 0)) LEGO_COLORS /\
    List.length LEGO_COLORS = 44%nat /\
    closest_lego_color (255, 0, 0) = Ok (180, 0, 0) /\
    (forall c, In c LEGO_COLORS ->
               c = mk_color "Bright Red" (180, 0, 0) \/
               distance (255, 0, 0) (180, 0, 0) < distance (255, 0, 0) (rgb c)).
Proof.
  apply (@solid_red_scenario Examples.euclid Examples.nearest Examples.plenty
           (Examples.solid 640 480 (255, 0, 0))).
  - exact nearest_preserves_solid.
  - reflexivity.
  - reflexivity.
  - apply solid_is_solid.
Defined.

(** ** Grid height *)

(** C9 as stated fails: for a source of height 7 and width 8 and a grid
    width of 10 the quotient is 8.75; the script passes 8, and the nearest
    integer is 9. *)
Lemma height_blocks_not_rounded :
  height_blocks 7 8 10 = Ok 8 /\
  ~ spec_round_nearest (10 * 7) 8 8 /\
  spec_round_nearest (10 * 7) 8 9.
Proof.
  split; [vm_compute; reflexivity|].
  unfold spec_round_nearest. split; lia.
Qed.

(** C9, amended. The grid height is the float product
    [width_blocks * (height / width)] truncated toward zero: when that
    product is the finite number [num / den], the script passes the integer
    quotient [num ÷ den], whose distance to the product is below one. *)
Theorem height_blocks_truncates (original_height original_width width_blocks : Z)
        (num den : Z) :
  original_width <> 0 ->
  sf_exact (Prim2SF (float_of_int width_blocks
                     * (float_of_int original_height / float_of_int original_width)))
  = Some (num, den) ->
  0 < den /\
  height_blocks original_height original_width width_blocks = Ok (num ÷ den) /\
  Z.abs (num ÷ den) * den <= Z.abs num < (Z.abs (num ÷ den) + 1) * den.
Proof.
  intros HW. unfold height_blocks, int_of_float.
  destruct (Z.eqb_spec original_width 0) as [|_]; [contradiction|].
  destruct (Prim2SF _) as [s|s| |s m e]; cbn [sf_exact]; try discriminate.
  - intros [= <- <-]. repeat split; try reflexivity; lia.
  - cbv zeta. set (M := Z.pos m). assert (HM : 0 < M) by (unfold M; lia).
    clearbody M. intros E.
    assert (E1 : (if s then - (M * 2 ^ Z.max 0 e) else M * 2 ^ Z.max 0 e) = num)
      by congruence.
    assert (E2 : 2 ^ Z.max 0 (- e) = den) by congruence.
    clear E. subst num den.
    destruct (Z.leb_spec 0 e) as [He|He].
    + rewrite (Z.max_r 0 e), (Z.max_l 0 (- e)) by lia.
      change (2 ^ 0) with 1.
      assert (0 < 2 ^ e) by (apply Z.pow_pos_nonneg; lia).
      destruct s; rewrite Z.quot_1_r; repeat split; try reflexivity; nia.
    + rewrite (Z.max_l 0 e), (Z.max_r 0 (- e)) by lia.
      change (2 ^ 0) with 1. rewrite Z.mul_1_r.
      set (d := 2 ^ (- e)).
      assert (Hd : 0 < d) by (apply Z.pow_pos_nonneg; lia).
      pose proof (Z.mul_div_le M d Hd) as Hlo.
      pose proof (Z.mul_succ_div_gt M d Hd) as Hhi.
      assert (Hq : M ÷ d = M / d) by (apply Z.quot_div_nonneg; lia).
      assert (Hn : 0 <= M / d) by (apply Z.div_pos; lia).
      destruct s.
      * rewrite Z.quot_opp_l by lia. rewrite Hq.
        repeat split; try assumption; try reflexivity; nia.
      * rewrite Hq. repeat split; try assumption; try reflexivity; nia.
Qed.

Lemma height_blocks_truncates_witness :
  0 < 562949953421312 /\
  height_blocks 7 8 10 = Ok (4925812092436480 ÷ 562949953421312) /\
  Z.abs (4925812092436480 ÷ 562949953421312) * 562949953421312
  <= Z.abs 4925812092436480
  < (Z.abs (4925812092436480 ÷ 562949953421312) + 1) * 562949953421312.
Proof.
  apply (height_blocks_truncates 7 8 10 4925812092436480 562949953421312).
  - discriminate.
  - vm_compute. reflexivity.
Defined.

(** ** Degenerate parameters *)

(** With a brick size of 0 the loops visit every cell and paint nothing. *)
Lemma paint_grid_zero `{Colormath} (small r0 : Image) (w h : Z) (up ha : bool) :
  0 < w -> 0 < h -> width small = w -> height small = h ->
  for_each (range h) (fun y result =>
    for_each (range w) (fun x result =>
      orig_color <- getpixel small (x, y) ;;
      color <- block_color up ha orig_color ;;
      for_each (range 0) (fun dy result =>
        for_each (range 0) (fun dx result =>
          putpixel result (x * 0 + dx, y * 0 + dy) color)
        result)
      result)
    result)
  r0 = Ok r0.
Proof.
  intros Hw Hh Ws Hs.
  match goal with
  | |- for_each _ ?body _ = _ =>
      destruct (for_each_range (fun _ r => r = r0) body h r0) as (r & Hr & ->);
        [lia | reflexivity | | assumption]
  end.
  intros y r Hy ->.
  match goal with
  | |- exists s', for_each _ ?body _ = _ /\ _ =>
      destruct (for_each_range (fun _ r => r = r0) body w r0) as (r & Hr & ->);
        [lia | reflexivity | | eauto]
  end.
  intros x r Hx ->.
  rewrite getpixel_inside by lia. cbv beta iota delta [bind].
  destruct (block_color_Ok up ha (to_rgb (px small x y))) as (c & ->).
  exists r0. split; reflexivity.
Qed.

(** C4 as stated fails: a brick size of 0 with a grid of (1,1) is not
    rejected; the call returns an empty image. *)
Lemma lego_pixelate_zero_brick_accepted :
  exists out,
    @lego_pixelate Examples.euclid Examples.nearest Examples.plenty Examples.quad 0 (1, 1) true false
    = Ok out /\
    width out = 0 /\ height out = 0.
Proof.
  eexists. split; [vm_compute; reflexivity|]. split; reflexivity.
Qed.

(** C4, amended. [lego_pixelate] checks nothing itself and has no error of
    its own.  For a source image that is not empty and sizes that Pillow
    accepts: a grid width or height below 1, or a negative brick size,
    makes the call fail with the [ValueError] of the imaging library; a
    brick size of 0 with a positive grid is accepted and gives an empty
    image. *)
Theorem lego_pixelate_degenerate_parameters `{Colormath} `{Resampler} `{Memory}
        (img : Image) (pixel_size w h : Z) (use_lego_palette high_accuracy : bool) :
  0 < width img -> 0 < height img ->
  (fits_C_int w = true -> fits_C_int h = true -> w <= 0 \/ h <= 0 ->
   lego_pixelate img pixel_size (w, h) use_lego_palette high_accuracy
   = Raise ValueError) /\
  (accepts (w, h) -> 0 < w -> 0 < h -> pixel_size < 0 ->
   lego_pixelate img pixel_size (w, h) use_lego_palette high_accuracy
   = Raise ValueError) /\
  (accepts (w, h) -> 0 < w -> 0 < h -> pixel_size = 0 ->
   exists out,
     lego_pixelate img pixel_size (w, h) use_lego_palette high_accuracy = Ok out /\
     width out = 0 /\ height out = 0).
Proof.
  intros Wi Hi. split; [|split].
  - intros Fw Fh Hbad. unfold lego_pixelate, resize.
    replace ((width img =? w) && (height img =? h)) with false by zbool.
    rewrite Fw, Fh. cbn [andb negb].
    replace ((w <? 1) || (h <? 1)) with true by zbool. reflexivity.
  - intros Agrid Hw Hh Hneg. unfold lego_pixelate.
    destruct (resize_Ok img w h Hw Hh Agrid) as (small & -> & _ & _).
    cbn [bind fst snd]. unfold Image_new.
    replace ((w * pixel_size <? 0) || (h * pixel_size <? 0)) with true;
      [reflexivity|].
    symmetry. apply orb_true_iff. left. apply Z.ltb_lt. nia.
  - intros Agrid Hw Hh ->. unfold lego_pixelate.
    destruct (resize_Ok img w h Hw Hh Agrid) as (small & -> & Ws & Hs).
    cbn [bind fst snd]. rewrite !Z.mul_0_r.
    rewrite Image_new_Ok;
      [|lia|lia|repeat split; try reflexivity; apply can_allocate_small; simpl; lia].
    cbn [bind].
    eexists. split; [apply (paint_grid_zero small _ w h); assumption|].
    split; reflexivity.
Qed.

Lemma lego_pixelate_degenerate_parameters_witness :
  (fits_C_int 0 = true -> fits_C_int 3 = true -> 0 <= 0 \/ 3 <= 0 ->
   @lego_pixelate Examples.euclid Examples.nearest Examples.plenty
                  Examples.quad 5 (0, 3) true false
   = Raise ValueError) /\
  (@accepts Examples.plenty (0, 3) -> 0 < 0 -> 0 < 3 -> 5 < 0 ->
   @lego_pixelate Examples.euclid Examples.nearest Examples.plenty
                  Examples.quad 5 (0, 3) true false
   = Raise ValueError) /\
  (@accepts Examples.plenty (0, 3) -> 0 < 0 -> 0 < 3 -> 5 = 0 ->
   exists out,
     @lego_pixelate Examples.euclid Examples.nearest Examples.plenty
                    Examples.quad 5 (0, 3) true false
     = Ok out /\
     width out = 0 /\ height out = 0).
Proof.
  apply (@lego_pixelate_degenerate_parameters Examples.euclid Examples.nearest
           Examples.plenty Examples.quad 5 0 3 true false); reflexivity.
Defined.

(** * Further properties of the code *)

(** ** The squared RGB distance *)

(** X1. The [distance] of the fast matcher is symmetric, never negative,
    and zero exactly between equal triples. *)
Theorem distance_separates (c1 c2 : RGB) :
  distance c1 c2 = distance c2 c1 /\
  0 <= distance c1 c2 /\
  (distance c1 c2 = 0 <-> c1 = c2).
Proof.
  split; [|split].
  - destruct c1 as [[r1 g1] b1], c2 as [[r2 g2] b2]. unfold distance. nia.
  - apply distance_nonneg.
  - apply distance_zero.
Qed.

(** The fast matcher maps the colour of a palette entry to itself. *)
Lemma closest_lego_color_on_palette (e : lego_color) :
  In e LEGO_COLORS -> closest_lego_color (rgb e) = Ok (rgb e).
Proof.
  intros He.
  destruct (closest_lego_color_first_min (rgb e)) as (c & Hc & Hm).
  rewrite Hc. f_equal.
  assert (D0 : distance (rgb e) (rgb e) = 0) by now apply distance_zero.
  pose proof (distance_nonneg (rgb e) (rgb c)) as Dc.
  symmetry. apply distance_zero.
  destruct (first_min_cases _ _ _ _ Hm He) as [Hlt|[->|Hge]]; unfold closer in *; lia.
Qed.

(** X2. Snapping is idempotent: matching the result of the fast matcher
    again gives the same colour. *)
Theorem closest_lego_color_idempotent (pixel_rgb : RGB) :
  (c <- closest_lego_color pixel_rgb ;; closest_lego_color c)
  = closest_lego_color pixel_rgb.
Proof.
  destruct (closest_lego_color_first_min pixel_rgb) as (c & Hc & Hm).
  rewrite Hc. cbv beta iota delta [bind].
  apply closest_lego_color_on_palette. exact (first_min_In _ _ _ Hm).
Qed.

(** ** The fallback of the accurate matcher *)

Lemma ltb_trans (x y z : float) :
  (x <? y)%float = true -> (y <? z)%float = true -> (x <? z)%float = true.
Proof.
  intros H1 H2.
  destruct (ltb_not_nan _ _ H1) as [Nx Ny]. destruct (ltb_not_nan _ _ H2) as [_ Nz].
  apply ltb_fkey; [assumption | assumption |].
  apply ltb_fkey in H1, H2; try assumption.
  destruct (fkey x) as [[a1 b1] c1], (fkey y) as [[a2 b2] c2],
           (fkey z) as [[a3 b3] c3].
  simpl in *. lia.
Qed.

(** The state of the Lab loop: either nothing was below [inf] so far and
    the state is the initial one, or the state is an entry seen so far with
    its difference, which is below [inf]. *)
Lemma lab_fold_state `{Colormath} (pixel_rgb : RGB) (c0 : lego_color)
      (l : list lego_color) :
  forall (seen : list lego_color) (st : lego_color * float),
    (st = (c0, infinity) /\
     forall x, In x seen -> (delta_to pixel_rgb x <? infinity)%float = false) \/
    (In (fst st) seen /\ snd st = delta_to pixel_rgb (fst st) /\
     (snd st <? infinity)%float = true) ->
    let st' := fold_left (lab_step (rgb_to_lab pixel_rgb)) l st in
    (st' = (c0, infinity) /\
     forall x, In x (seen ++ l) -> (delta_to pixel_rgb x <? infinity)%float = false) \/
    (In (fst st') (seen ++ l) /\ snd st' = delta_to pixel_rgb (fst st') /\
     (snd st' <? infinity)%float = true).
Proof.
  induction l as [|x t IH]; intros seen st Hst; cbn [fold_left].
  - rewrite app_nil_r. exact Hst.
  - replace (seen ++ x :: t) with ((seen ++ [x]) ++ t)
      by (rewrite <- app_assoc; reflexivity).
    apply IH. destruct st as [b d]. unfold lab_step. fold (delta_to pixel_rgb x).
    destruct (delta_to pixel_rgb x <? d)%float eqn:L.
    + right. cbn [fst snd]. split; [|split].
      * apply in_app_iff. right. left. reflexivity.
      * reflexivity.
      * destruct Hst as [[E _]|(_ & _ & Hd)].
        -- injection E as _ ->. exact L.
        -- cbn [snd] in Hd. exact (ltb_trans _ _ _ L Hd).
    + destruct Hst as [[E Hall]|(Hin & Hd & Hlt)].
      * left. split; [assumption|]. injection E as _ ->.
        intros y Hy. apply in_app_iff in Hy. destruct Hy as [Hy|[<-|[]]]; auto.
      * right. split; [|split]; try assumption.
        apply in_app_iff. left. assumption.
Qed.

(** X5. The accurate matcher always answers with a palette colour: that of
    an entry whose difference is below infinity, or, when no entry has
    such a difference (every one is NaN or infinite), that of the first
    entry, "Brick Yellow". *)
Theorem closest_lego_color_lab_fallback `{Colormath} (pixel_rgb : RGB) :
  exists c,
    closest_lego_color_lab pixel_rgb = Ok (rgb c) /\
    In c LEGO_COLORS /\
    ((delta_to pixel_rgb c <? infinity)%float = true \/
     (c = mk_color "Brick Yellow" (236, 217, 185) /\
      forall x, In x LEGO_COLORS ->
                (delta_to pixel_rgb x <? infinity)%float = false)).
Proof.
  unfold closest_lego_color_lab.
  assert (Hhd : hd_error LEGO_COLORS = Some (mk_color "Brick Yellow" (236, 217, 185)))
    by reflexivity.
  destruct LEGO_COLORS as [|c0 rest] eqn:E; [discriminate|].
  injection Hhd as ->.
  cbv beta iota delta [bind].
  pose proof (lab_fold_state pixel_rgb (mk_color "Brick Yellow" (236, 217, 185))
                (mk_color "Brick Yellow" (236, 217, 185) :: rest) []
                (mk_color "Brick Yellow" (236, 217, 185), infinity)) as Hst.
  cbv zeta in Hst. rewrite app_nil_l in Hst.
  destruct (fold_left _ _ _) as [c d].
  destruct Hst as [[Est Hall]|(Hin & Hd & Hlt)].
  - left. split; [reflexivity | intros x []].
  - injection Est as -> ->. eexists. split; [reflexivity|].
    split; [left; reflexivity|]. right. split; [reflexivity | exact Hall].
  - cbn [fst snd] in *. exists c. split; [reflexivity|]. split; [assumption|].
    left. rewrite <- Hd. exact Hlt.
Qed.

(** ** Every outcome of the renderer *)

Lemma range_nonpos (n : Z) : n <= 0 -> range n = [].
Proof.
  intros Hn. unfold range. destruct n; try reflexivity. lia.
Qed.

(** Whatever the grid and the brick size, the loops of [lego_pixelate] on
    an image of the size that [Image.new] was given raise nothing and keep
    that size. *)
Lemma paint_any `{Colormath} (small r0 : Image) (p w h : Z) (up ha : bool) :
  width small = w -> height small = h ->
  width r0 = w * p -> height r0 = h * p ->
  0 <= w * p -> 0 <= h * p ->
  exists out,
    for_each (range h) (fun y result =>
      for_each (range w) (fun x result =>
        orig_color <- getpixel small (x, y) ;;
        color <- block_color up ha orig_color ;;
        for_each (range p) (fun dy result =>
          for_each (range p) (fun dx result =>
            putpixel result (x * p + dx, y * p + dy) color)
          result)
        result)
      result)
    r0 = Ok out /\
    width out = w * p /\ height out = h * p.
Proof.
  intros Ws Hs Wr Hr Hwp Hhp.
  destruct (Z_lt_le_dec 0 h) as [Hh|Hh].
  - destruct (Z_lt_le_dec 0 w) as [Hw|Hw].
    + assert (Hp : 0 <= p) by nia.
      destruct (Z.eq_dec p 0) as [->|Hp0].
      * exists r0. split; [|split; assumption].
        apply (paint_grid_zero small r0 w h); assumption.
      * destruct (paint_grid small r0 p w h up ha)
          as (out & Hout & Wo & Ho & _); try assumption; try lia.
        exists out. split; [exact Hout|]. split; congruence.
    + exists r0. split; [|split; assumption].
      match goal with
      | |- for_each _ ?body _ = _ =>
          destruct (for_each_range (fun _ r => r = r0) body h r0) as (r & Hl & ->);
            [lia | reflexivity | | assumption]
      end.
      intros y r Hy ->. exists r0. rewrite (range_nonpos w Hw). split; reflexivity.
  - exists r0. rewrite (range_nonpos h Hh). repeat split; assumption.
Qed.

Lemma resize_dims `{Resampler} `{Memory} (img small : Image) (w h : Z) :
  resize img (w, h) = Ok small -> width small = w /\ height small = h.
Proof.
  unfold resize.
  destruct ((width img =? w) && (height img =? h)) eqn:E.
  - apply andb_true_iff in E. destruct E as [E1 E2]. apply Z.eqb_eq in E1, E2.
    destruct (can_allocate w h); [|discriminate]. intros [= <-]. auto.
  - destruct (negb _); [discriminate|].
    destruct ((w <? 1) || (h <? 1)); [discriminate|].
    destruct (can_allocate w h); [|discriminate]. intros [= <-]. auto.
Qed.

Lemma Image_new_dims `{Memory} (r0 : Image) (w h : Z) :
  Image_new (w, h) = Ok r0 ->
  width r0 = w /\ height r0 = h /\ 0 <= w /\ 0 <= h.
Proof.
  unfold Image_new.
  destruct ((w <? 0) || (h <? 0)) eqn:E; [discriminate|].
  apply orb_false_iff in E. destruct E as [E1 E2]. apply Z.ltb_ge in E1, E2.
  destruct (negb _); [discriminate|].
  destruct (can_allocate w h); [|discriminate]. intros [= <-]. auto.
Qed.

(** X3. The outcomes of [lego_pixelate], for every argument: when [resize]
    raises, or else [Image.new] raises, the call raises that error (a
    [ValueError], [OverflowError] or [MemoryError]); when both return, the
    call returns an image of width [w * p] and height [h * p].  The loops
    raise nothing: no pixel access ever raises [IndexError]. *)
Theorem lego_pixelate_outcome `{Colormath} `{Resampler} `{Memory}
        (img : Image) (pixel_size w h : Z) (use_lego_palette high_accuracy : bool) :
  match resize img (w, h), Image_new (w * pixel_size, h * pixel_size) with
  | Raise e, _ =>
      lego_pixelate img pixel_size (w, h) use_lego_palette high_accuracy = Raise e
  | Ok _, Raise e =>
      lego_pixelate img pixel_size (w, h) use_lego_palette high_accuracy = Raise e
  | Ok _, Ok _ =>
      exists out,
        lego_pixelate img pixel_size (w, h) use_lego_palette high_accuracy = Ok out /\
        width out = w * pixel_size /\ height out = h * pixel_size
  end /\
  lego_pixelate img pixel_size (w, h) use_lego_palette high_accuracy
  <> Raise IndexError.
Proof.
  assert (Hmain :
    match resize img (w, h), Image_new (w * pixel_size, h * pixel_size) with
    | Raise e, _ =>
        lego_pixelate img pixel_size (w, h) use_lego_palette high_accuracy = Raise e
    | Ok _, Raise e =>
        lego_pixelate img pixel_size (w, h) use_lego_palette high_accuracy = Raise e
    | Ok _, Ok _ =>
        exists out,
          lego_pixelate img pixel_size (w, h) use_lego_palette high_accuracy = Ok out /\
          width out = w * pixel_size /\ height out = h * pixel_size
    end).
  { unfold lego_pixelate. cbn [fst snd].
    destruct (resize img (w, h)) as [small|e] eqn:Hres; [|reflexivity].
    destruct (Image_new (w * pixel_size, h * pixel_size)) as [r0|e] eqn:Hnew;
      [|reflexivity].
    cbn [bind].
    destruct (resize_dims _ _ _ _ Hres) as [Ws Hs].
    destruct (Image_new_dims _ _ _ Hnew) as (Wr & Hr & Hwp & Hhp).
    apply (paint_any small r0 pixel_size w h); assumption. }
  split; [exact Hmain|].
  assert (R1 : resize img (w, h) <> Raise IndexError).
  { unfold resize. repeat match goal with
                          | |- context [if ?c then _ else _] => destruct c
                          end; discriminate. }
  assert (R2 : Image_new (w * pixel_size, h * pixel_size) <> Raise IndexError).
  { unfold Image_new. repeat match goal with
                             | |- context [if ?c then _ else _] => destruct c
                             end; discriminate. }
  destruct (resize img (w, h)) as [small|e].
  - destruct (Image_new (w * pixel_size, h * pixel_size)) as [r0|e].
    + destruct Hmain as (out & -> & _). discriminate.
    + rewrite Hmain. exact R2.
  - rewrite Hmain. exact R1.
Qed.

(** ** The colour of a block *)

(** X4. In fast mode with the palette on, for positive sizes that Pillow
    accepts, the colour of every block is a palette colour at least as
    close, in squared RGB distance, to the downsampled pixel of its cell as
    every palette entry. *)
Theorem lego_pixelate_fast_blocks_nearest `{Colormath} `{Resampler} `{Memory}
        (img : Image) (pixel_size w h : Z) :
  0 < pixel_size -> 0 < w -> 0 < h ->
  accepts (w, h) -> accepts (w * pixel_size, h * pixel_size) ->
  exists small out,
    resize img (w, h) = Ok small /\
    lego_pixelate img pixel_size (w, h) true false = Ok out /\
    forall x y dx dy,
      0 <= x < w -> 0 <= y < h -> 0 <= dx < pixel_size -> 0 <= dy < pixel_size ->
      exists orig c,
        getpixel small (x, y) = Ok orig /\
        In c LEGO_COLORS /\
        getpixel out (x * pixel_size + dx, y * pixel_size + dy) = Ok (rgb c) /\
        forall e, In e LEGO_COLORS -> distance orig (rgb c) <= distance orig (rgb e).
Proof.
  intros Hp Hw Hh Agrid Aout.
  destruct (lego_pixelate_spec img pixel_size w h true false Hp Hw Hh Agrid Aout)
    as (small & out & Hres & Ws & Hs & Hout & Wo & Ho & Po).
  exists small, out. repeat split; try assumption.
  intros x y dx dy Hx Hy Hdx Hdy.
  destruct (closest_lego_color_first_min (to_rgb (px small x y)))
    as (c & Hc & pre & post & E & Hpre & Hpost).
  assert (Hin : In c LEGO_COLORS) by (rewrite E; apply in_app_iff; simpl; auto).
  exists (to_rgb (px small x y)), c.
  rewrite !getpixel_inside by nia. rewrite Po by nia.
  rewrite (div_block pixel_size x (x * pixel_size + dx)) by lia.
  rewrite (div_block pixel_size y (y * pixel_size + dy)) by lia.
  unfold cell_pixel, block_color. rewrite Hc.
  rewrite to_rgb_of_rgb by now apply palette_in_gamut.
  repeat split; try assumption.
  intros e He. rewrite E in He. apply in_app_iff in He. unfold closer in *.
  destruct He as [He|[<-|He]].
  - specialize (Hpre e He). lia.
  - lia.
  - specialize (Hpost e He). lia.
Qed.

Lemma lego_pixelate_fast_blocks_nearest_witness :
  exists small out,
    @resize Examples.nearest Examples.plenty Examples.quad (2, 2) = Ok small /\
    @lego_pixelate Examples.euclid Examples.nearest Examples.plenty Examples.quad 3 (2, 2) true false
    = Ok out /\
    forall x y dx dy,
      0 <= x < 2 -> 0 <= y < 2 -> 0 <= dx < 3 -> 0 <= dy < 3 ->
      exists orig c,
        getpixel small (x, y) = Ok orig /\
        In c LEGO_COLORS /\
        getpixel out (x * 3 + dx, y * 3 + dy) = Ok (rgb c) /\
        forall e, In e LEGO_COLORS -> distance orig (rgb c) <= distance orig (rgb e).
Proof.
  apply (@lego_pixelate_fast_blocks_nearest Examples.euclid Examples.nearest Examples.plenty
           Examples.quad 3 2 2);
    first [lia | repeat split; reflexivity].
Defined.

(** X6. In accurate mode with the palette on, for positive sizes that
    Pillow accepts, when no CIE2000 difference between a downsampled pixel
    and a palette entry is NaN, the colour of every block is that of a
    palette entry whose difference to the downsampled pixel of its cell no
    entry undercuts. *)
Theorem lego_pixelate_accurate_blocks_nearest `{Colormath} `{Resampler} `{Memory}
        (img : Image) (pixel_size w h : Z) :
  0 < pixel_size -> 0 < w -> 0 < h ->
  accepts (w, h) -> accepts (w * pixel_size, h * pixel_size) ->
  (forall small, resize img (w, h) = Ok small ->
     forall x y, 0 <= x < w -> 0 <= y < h ->
       forall c, In c LEGO_COLORS ->
                 is_nan (delta_to (to_rgb (px small x y)) c) = false) ->
  exists small out,
    resize img (w, h) = Ok small /\
    lego_pixelate img pixel_size (w, h) true true = Ok out /\
    forall x y dx dy,
      0 <= x < w -> 0 <= y < h -> 0 <= dx < pixel_size -> 0 <= dy < pixel_size ->
      exists orig c,
        getpixel small (x, y) = Ok orig /\
        In c LEGO_COLORS /\
        getpixel out (x * pixel_size + dx, y * pixel_size + dy) = Ok (rgb c) /\
        forall e, In e LEGO_COLORS ->
                  (delta_to orig e <? delta_to orig c)%float = false.
Proof.
  intros Hp Hw Hh Agrid Aout Hnan.
  destruct (lego_pixelate_spec img pixel_size w h true true Hp Hw Hh Agrid Aout)
    as (small & out & Hres & Ws & Hs & Hout & Wo & Ho & Po).
  exists small, out. repeat split; try assumption.
  intros x y dx dy Hx Hy Hdx Hdy.
  destruct (closest_lego_color_lab_first_min (to_rgb (px small x y)))
    as (c & Hc & pre & post & E & Hpre & Hpost).
  { intros c Hin. now apply (Hnan small Hres x y). }
  assert (Hin : In c LEGO_COLORS) by (rewrite E; apply in_app_iff; simpl; auto).
  exists (to_rgb (px small x y)), c.
  rewrite !getpixel_inside by nia. rewrite Po by nia.
  rewrite (div_block pixel_size x (x * pixel_size + dx)) by lia.
  rewrite (div_block pixel_size y (y * pixel_size + dy)) by lia.
  unfold cell_pixel, block_color. rewrite Hc.
  rewrite to_rgb_of_rgb by now apply palette_in_gamut.
  repeat split; try assumption.
  intros e He. rewrite E in He. apply in_app_iff in He.
  unfold perceptually_closer in *.
  destruct (delta_to (to_rgb (px small x y)) e
            <? delta_to (to_rgb (px small x y)) c)%float eqn:L;
    [exfalso | reflexivity].
  destruct He as [He|[<-|He]].
  - exact (ltb_asym _ _ L (Hpre e He)).
  - exact (ltb_asym _ _ L L).
  - exact (Hpost e He L).
Qed.

Lemma lego_pixelate_accurate_blocks_nearest_witness :
  exists small out,
    @resize Examples.nearest Examples.plenty Examples.quad (2, 2) = Ok small /\
    @lego_pixelate Examples.euclid Examples.nearest Examples.plenty Examples.quad 3 (2, 2) true true
    = Ok out /\
    forall x y dx dy,
      0 <= x < 2 -> 0 <= y < 2 -> 0 <= dx < 3 -> 0 <= dy < 3 ->
      exists orig c,
        getpixel small (x, y) = Ok orig /\
        In c LEGO_COLORS /\
        getpixel out (x * 3 + dx, y * 3 + dy) = Ok (rgb c) /\
        forall e, In e LEGO_COLORS ->
                  (@delta_to Examples.euclid orig e
                   <? @delta_to Examples.euclid orig c)%float = false.
Proof.
  apply (@lego_pixelate_accurate_blocks_nearest Examples.euclid Examples.nearest Examples.plenty
           Examples.quad 3 2 2); try lia; try (repeat split; reflexivity).
  intros small E x y Hx Hy c Hin.
  change (Ok Examples.quad = Ok small) in E. injection E as <-.
  assert (Hx' : x = 0 \/ x = 1) by lia. assert (Hy' : y = 0 \/ y = 1) by lia.
  destruct Hx' as [-> | ->], Hy' as [-> | ->];
    match goal with
    | |- is_nan (delta_to ?p c) = false =>
        assert (Hall : forallb (fun c => negb (is_nan (@delta_to Examples.euclid p c)))
                         LEGO_COLORS = true) by (vm_compute; reflexivity);
        rewrite forallb_forall in Hall; specialize (Hall c Hin);
        now apply negb_true_iff in Hall
    end.
Defined.

(** ** Snapping an image that is already in the palette *)

(** Two images of one size with the same pixels read the same everywhere,
    also where reading raises. *)
Lemma getpixel_ext (im1 im2 : Image) :
  width im1 = width im2 -> height im1 = height im2 ->
  (forall a b, 0 <= a < width im1 -> 0 <= b < height im1 -> px im1 a b = px im2 a b) ->
  forall xy, getpixel im1 xy = getpixel im2 xy.
Proof.
  intros Ew Eh Hpx [x y]. unfold getpixel, locate. rewrite <- Ew, <- Eh.
  set (x' := if x <? 0 then width im1 + x else x).
  set (y' := if y <? 0 then height im1 + y else y).
  destruct (x' <? 0) eqn:E1; [reflexivity|].
  destruct (width im1 <=? x') eqn:E2; [reflexivity|].
  destruct (y' <? 0) eqn:E3; [reflexivity|].
  destruct (height im1 <=? y') eqn:E4; [reflexivity|].
  apply Z.ltb_ge in E1, E3. apply Z.leb_gt in E2, E4.
  cbn [orb bind fst snd]. rewrite Hpx by lia. reflexivity.
Qed.

(** X7. For positive sizes that Pillow accepts: when every pixel of the
    downsampled image is already a palette colour, switching the palette on
    (fast mode) changes nothing: the result reads the same as the result
    with the palette off. *)
Theorem lego_pixelate_palette_image_unchanged `{Colormath} `{Resampler} `{Memory}
        (img : Image) (pixel_size w h : Z) (high_accuracy : bool) :
  0 < pixel_size -> 0 < w -> 0 < h ->
  accepts (w, h) -> accepts (w * pixel_size, h * pixel_size) ->
  (forall small, resize img (w, h) = Ok small ->
     forall x y, 0 <= x < w -> 0 <= y < h ->
       exists e, In e LEGO_COLORS /\ to_rgb (px small x y) = rgb e) ->
  exists snapped plain,
    lego_pixelate img pixel_size (w, h) true false = Ok snapped /\
    lego_pixelate img pixel_size (w, h) false high_accuracy = Ok plain /\
    forall xy, getpixel snapped xy = getpixel plain xy.
Proof.
  intros Hp Hw Hh Agrid Aout Hpal.
  destruct (lego_pixelate_spec img pixel_size w h true false Hp Hw Hh Agrid Aout)
    as (small & snapped & Hres & Ws & Hs & Hout1 & Wo1 & Ho1 & Po1).
  destruct (lego_pixelate_spec img pixel_size w h false high_accuracy Hp Hw Hh Agrid Aout)
    as (small' & plain & Hres' & _ & _ & Hout2 & Wo2 & Ho2 & Po2).
  assert (small' = small) by congruence. subst small'.
  exists snapped, plain. repeat split; try assumption.
  apply getpixel_ext; try congruence.
  intros a b Ha Hb. rewrite Po1, Po2 by lia.
  assert (Hx : 0 <= a / pixel_size < w).
  { split; [apply Z.div_pos; lia | apply Z.div_lt_upper_bound; nia]. }
  assert (Hy : 0 <= b / pixel_size < h).
  { split; [apply Z.div_pos; lia | apply Z.div_lt_upper_bound; nia]. }
  destruct (Hpal small Hres _ _ Hx Hy) as (e & He & Epx).
  unfold cell_pixel, block_color. rewrite Epx.
  rewrite (closest_lego_color_on_palette e He). reflexivity.
Qed.

Lemma lego_pixelate_palette_image_unchanged_witness :
  exists snapped plain,
    @lego_pixelate Examples.euclid Examples.nearest Examples.plenty
                   (Examples.solid 4 4 (180, 0, 0)) 3 (2, 2) true false = Ok snapped /\
    @lego_pixelate Examples.euclid Examples.nearest Examples.plenty
                   (Examples.solid 4 4 (180, 0, 0)) 3 (2, 2) false true = Ok plain /\
    forall xy, getpixel snapped xy = getpixel plain xy.
Proof.
  apply (@lego_pixelate_palette_image_unchanged Examples.euclid Examples.nearest Examples.plenty
           (Examples.solid 4 4 (180, 0, 0)) 3 2 2 true);
    try lia; try (repeat split; reflexivity).
  intros small E x y Hx Hy.
  change (Ok (mk_image 2 2 (fun _ _ => of_rgb (180, 0, 0))) = Ok small) in E.
  injection E as <-.
  exists bright_red. split; [do 2 right; left; reflexivity | reflexivity].
Defined.

(** ** The script's call *)

(** X8. For an uploaded image that is not empty, positive slider values
    and a grid whose sides are C [int]s: when the truncated grid height is
    below 1 (a source much wider than high) the call of [lego_pixelate]
    raises [ValueError]; when it is at least 1 and Pillow accepts the grid
    and the output size, the script obtains an image of
    [width_blocks * brick_size] by [height_blocks * brick_size] pixels. *)
Theorem script_lego_img_outcome `{Colormath} `{Resampler} `{Memory}
        (original : Image) (brick_size width_blocks : Z)
        (use_lego high_accuracy : bool) (hb : Z) :
  0 < width original -> 0 < height original ->
  0 < brick_size -> 0 < width_blocks ->
  height_blocks (height original) (width original) width_blocks = Ok hb ->
  fits_C_int width_blocks = true -> fits_C_int hb = true ->
  if hb <? 1
  then script_lego_img original brick_size width_blocks use_lego high_accuracy
       = Raise ValueError
  else accepts (width_blocks, hb) ->
       accepts (width_blocks * brick_size, hb * brick_size) ->
       exists out,
         script_lego_img original brick_size width_blocks use_lego high_accuracy
         = Ok out /\
         width out = width_blocks * brick_size /\ height out = hb * brick_size.
Proof.
  intros Wi Hi Hp Hw Hhb Fw Fh. unfold script_lego_img. rewrite Hhb.
  cbv beta iota delta [bind].
  destruct (Z.ltb_spec hb 1) as [Hlt|Hge].
  - unfold lego_pixelate, resize.
    replace ((width original =? width_blocks) && (height original =? hb))
      with false by zbool.
    rewrite Fw, Fh. cbn [andb negb].
    replace ((width_blocks <? 1) || (hb <? 1)) with true by zbool.
    reflexivity.
  - intros Agrid Aout.
    destruct (lego_pixelate_spec original brick_size width_blocks hb
                use_lego high_accuracy)
      as (small & out & _ & _ & _ & Hout & Wo & Ho & _); try assumption; try lia.
    exists out. auto.
Qed.

Lemma script_lego_img_outcome_witness :
  @script_lego_img Examples.euclid Examples.nearest Examples.plenty
                   (Examples.solid 49 1 (255, 0, 0)) 20 49 true true
  = Raise ValueError.
Proof.
  apply (@script_lego_img_outcome Examples.euclid Examples.nearest Examples.plenty
           (Examples.solid 49 1 (255, 0, 0)) 20 49 true true 0).
  - reflexivity.
  - reflexivity.
  - reflexivity.
  - reflexivity.
  - vm_compute. reflexivity.
  - reflexivity.
  - reflexivity.
Defined.
